(** * TriLingua Lexicon: history store, CSV export and backend contract

    A shallow embedding of the client-side core of the TriLingua
    dictionary: the [App] component's state handling ([handleSearch],
    the two history effects, [exportHistory]) and the [GeminiService]
    class ([getClient], [analyzeWord], [analyzeSentence],
    [generateImage], [generateSpeech]).

    Representation choices.
    - A JavaScript string is a [string] holding the UTF-8 encoding of
      its text.  Every character the code inspects (the angle brackets,
      the comma, the double quote, JSON punctuation) is ASCII, and an
      ASCII byte never occurs inside a multi-byte UTF-8 sequence, so
      scanning bytes and scanning UTF-16 code units agree.
    - A JavaScript integer time value is a [Z].
    - A call that either returns or throws is a [Completion].
    - [undefined] / [null] of an optional field is [None]. *)

From Stdlib Require Import ZArith String Ascii List Lia.
From Stdlib Require Import Sorted.
From stdpp Require Import base tactics option list strings pretty.

Set Warnings "-register-all".

Local Open Scope string_scope.
Local Open Scope list_scope.

(** ** Characters that cannot be written inside a string literal *)

Definition DQUOTE : ascii := Ascii.ascii_of_nat 34.
Definition LF : ascii := Ascii.ascii_of_nat 10.
Definition BACKSLASH : ascii := Ascii.ascii_of_nat 92.

(** The one-character string holding a double quote. *)
Definition dq : string := String DQUOTE EmptyString.

(** ** JavaScript completions *)

Inductive Exn : Type :=
| Error (message : string)
| SyntaxError (message : string)
| RangeError (message : string)
| Rejected (reason : string).

Inductive Completion (A : Type) : Type :=
| Return (a : A)
| Throw (e : Exn).
Arguments Return {A} a.
Arguments Throw {A} e.

(** JavaScript truthiness of a string and of an optional string. *)
Definition truthy (s : string) : bool :=
  match s with EmptyString => false | String _ _ => true end.

Definition truthy_opt (o : option string) : bool :=
  match o with Some s => truthy s | None => false end.

(** ** Data model (types.ts) *)

Inductive ExampleLang : Type := lang_jp | lang_en.

Record ExampleSentence : Type := {
  text : string;
  translation : string;
  lang : ExampleLang
}.

(** The shape [{ jp; en; zh }] shared by [coreWord] and [pronunciation]. *)
Record Trilingual : Type := {
  jp : string;
  en : string;
  zh : string
}.

Module Definitions.
Record t : Type := {
  jp : string;
  jp_furigana : string;
  en : string;
  zh : string
}.
End Definitions.

Record Related : Type := {
  synonyms : list string;
  antonyms : list string
}.

Record WordData : Type := {
  inputWord : string;
  coreWord : Trilingual;
  pronunciation : Trilingual;
  definitions : Definitions.t;
  examples : list ExampleSentence;
  etymology : string;
  related : Related
}.

(** [HistoryItem] as [App] builds it: [{ id, timestamp, word, data,
    imageUrl }]. *)
Record HistoryItem : Type := {
  id : string;
  timestamp : Z;
  word : string;
  data : WordData;
  imageUrl : option string
}.

Inductive LoadingState : Type :=
| IDLE | ANALYZING | GENERATING_IMAGE | COMPLETE | ERROR.

(** ** The history update of [handleSearch]

    [setHistory(prev => { const filtered = prev.filter(item =>
       item.data.coreWord.jp !== data.coreWord.jp &&
       item.data.coreWord.en !== data.coreWord.en);
     return [newItem, ...filtered].slice(0, 50); })] *)

Definition keeps (d : WordData) (item : HistoryItem) : Prop :=
  jp (coreWord (data item)) ≠ jp (coreWord d) ∧
  en (coreWord (data item)) ≠ en (coreWord d).

Global Instance keeps_dec d item : Decision (keeps d item).
Proof. unfold keeps. apply _. Defined.

Definition historyUpdater (newItem : HistoryItem) (d : WordData)
    (prev : list HistoryItem) : list HistoryItem :=
  let filtered := filter (keeps d) prev in
  take 50 (newItem :: filtered).

(** One insert of a finished lookup: the item carries the record it is
    filtered against ([newItem.data] is [data] in [handleSearch]). *)
Definition insert (newItem : HistoryItem) (prev : list HistoryItem)
    : list HistoryItem :=
  historyUpdater newItem (data newItem) prev.

(** A sequence of inserts, oldest submission first. *)
Definition insertAll (items : list HistoryItem) (h : list HistoryItem)
    : list HistoryItem :=
  foldl (fun acc it => insert it acc) h items.

(** ** The completion monad *)

Global Instance Completion_ret : MRet Completion := @Return.
Global Instance Completion_bind : MBind Completion :=
  fun A B f c => match c with Return a => f a | Throw e => Throw e end.
Global Instance Completion_fmap : FMap Completion :=
  fun A B f c => match c with Return a => Return (f a) | Throw e => Throw e end.

(** ** String primitives used by the code *)

(** [s.replace(/DQUOTE/g, DQUOTE DQUOTE)]: every double quote of [s]
    is written twice. *)
Fixpoint doubleQuotes (s : string) : string :=
  match s with
  | EmptyString => EmptyString
  | String c r =>
      if Ascii.eqb c DQUOTE
      then String DQUOTE (String DQUOTE (doubleQuotes r))
      else String c (doubleQuotes r)
  end.

(** The template literal of the two definition columns: the doubled
    text between two double quotes. *)
Definition quoted (s : string) : string :=
  dq +:+ doubleQuotes s +:+ dq.

(** [text.replace(/<[^>]*>?/gm, '')].  A match starts at every [<]
    met outside a match, runs greedily over every character that is not
    [>] (line breaks included: a negated class matches them) and takes
    the [>] that follows when there is one; a [<] that is never
    closed therefore swallows the rest of the text.  [inTag] tells
    whether the scanner is inside such a match. *)
Fixpoint stripFrom (inTag : bool) (s : string) : string :=
  match s with
  | EmptyString => EmptyString
  | String c r =>
      if inTag then
        if Ascii.eqb c ">" then stripFrom false r else stripFrom true r
      else
        if Ascii.eqb c "<" then stripFrom true r
        else String c (stripFrom false r)
  end.

Definition stripTags (s : string) : string := stripFrom false s.

(** [Array.prototype.join]. *)
Definition join (sep : string) (l : list string) : string :=
  String.concat sep l.

(** ** [Date.prototype.toISOString] *)

Definition digit (d : Z) : ascii := Ascii.ascii_of_nat (48 + Z.to_nat d).

(** The [w] low decimal digits of [n], most significant first. *)
Fixpoint fixedDigits (w : nat) (n : Z) (acc : string) : string :=
  match w with
  | O => acc
  | S w' => fixedDigits w' (n / 10) (String (digit (n mod 10)) acc)
  end.

Definition pad (w : nat) (n : Z) : string := fixedDigits w n EmptyString.

Definition msPerDay : Z := 86400000.
Definition maxTimeValue : Z := 8640000000000000.

(** Proleptic Gregorian date of a day number counted from 1970-01-01. *)
Definition civilFromDays (days : Z) : Z * Z * Z :=
  let z := (days + 719468)%Z in
  let era := (z / 146097)%Z in
  let doe := (z - era * 146097)%Z in
  let yoe := ((doe - doe / 1460 + doe / 36524 - doe / 146096) / 365)%Z in
  let doy := (doe - (365 * yoe + yoe / 4 - yoe / 100))%Z in
  let mp := ((5 * doy + 2) / 153)%Z in
  let d := (doy - (153 * mp + 2) / 5 + 1)%Z in
  let m := (if (mp <? 10)%Z then mp + 3 else mp - 9)%Z in
  let y := (yoe + era * 400 + (if (m <=? 2)%Z then 1 else 0))%Z in
  (y, m, d).

Definition isoYear (y : Z) : string :=
  if ((0 <=? y) && (y <=? 9999))%Z then pad 4 y
  else (if (y <? 0)%Z then "-" else "+") +:+ pad 6 (Z.abs y).

(** [new Date(t).toISOString()]: a time value outside the range of
    [Date] makes an invalid date, on which the method throws. *)
Definition toISOString (t : Z) : Completion string :=
  if (Z.abs t <=? maxTimeValue)%Z then
    let '(y, m, d) := civilFromDays (t / msPerDay) in
    let ms := (t mod msPerDay)%Z in
    Return (isoYear y +:+ "-" +:+ pad 2 m +:+ "-" +:+ pad 2 d +:+ "T"
            +:+ pad 2 (ms / 3600000) +:+ ":" +:+ pad 2 (ms / 60000 mod 60) +:+ ":"
            +:+ pad 2 (ms / 1000 mod 60) +:+ "." +:+ pad 3 (ms mod 1000) +:+ "Z")
  else Throw (RangeError "Invalid time value").

(** ** [exportHistory] *)

Definition headers : list string :=
  ["Timestamp"; "Input"; "JP"; "EN"; "ZH"; "JP_Pron"; "EN_Pron";
   "Definition_JP"; "Definition_EN"].

(** The callback of [history.map(h => [...])]. *)
Definition row (h : HistoryItem) : Completion (list string) :=
  iso ← toISOString (timestamp h);
  mret [ iso;
         inputWord (data h);
         jp (coreWord (data h));
         en (coreWord (data h));
         zh (coreWord (data h));
         jp (pronunciation (data h));
         en (pronunciation (data h));
         quoted (Definitions.jp (definitions (data h)));
         quoted (Definitions.en (definitions (data h))) ].

Definition csvContent (history : list HistoryItem) : Completion string :=
  rows ← mapM row history;
  mret (join (String LF EmptyString)
          (join "," headers :: map (join ",") rows)).



(** *** Reading a CSV field back (the reader's side, from the CSV
    convention: strip the outer quotes, collapse doubled quotes) *)

Fixpoint unquoteBody (s : string) : option string :=
  match s with
  | EmptyString => None
  | String c r =>
      if Ascii.eqb c DQUOTE then
        match r with
        | EmptyString => Some EmptyString
        | String c2 r2 =>
            if Ascii.eqb c2 DQUOTE
            then String DQUOTE <$> unquoteBody r2
            else None
        end
      else String c <$> unquoteBody r
  end.

Definition csvUnescape (field : string) : option string :=
  match field with
  | EmptyString => Some EmptyString
  | String c r => if Ascii.eqb c DQUOTE then unquoteBody r else Some field
  end.

(** Splitting one exported line into its fields, the reader's side
    again: a comma outside quotes ends a field, a double quote opens or
    closes a quoted stretch, two double quotes inside one stand for a
    double quote.  [cur] holds the current field, last character
    first. *)
Fixpoint csvFields (inQuotes : bool) (cur : string) (s : string) : list string :=
  match s with
  | EmptyString => [String.rev cur]
  | String c r =>
      if inQuotes then
        if Ascii.eqb c DQUOTE then
          match r with
          | String c2 r2 =>
              if Ascii.eqb c2 DQUOTE then csvFields true (String DQUOTE cur) r2
              else csvFields false cur r
          | EmptyString => csvFields false cur r
          end
        else csvFields true (String c cur) r
      else if Ascii.eqb c "," then String.rev cur :: csvFields false EmptyString r
      else if Ascii.eqb c DQUOTE then csvFields true cur r
      else csvFields false (String c cur) r
  end.

Definition csvSplit (line : string) : list string :=
  csvFields false EmptyString line.

(** A field value needs quoting when it holds a double quote or a comma. *)
Fixpoint contains (c : ascii) (s : string) : bool :=
  match s with
  | EmptyString => false
  | String c' r => Ascii.eqb c' c || contains c r
  end.

Definition needsQuoting (s : string) : bool :=
  contains DQUOTE s || contains "," s.

(** ** JSON values and [JSON.parse]

    A number keeps its lexeme (no floating point is modelled); an object
    keeps its members in the order of the text. *)

Inductive JSON : Type :=
| JNull
| JBool (b : bool)
| JNumber (lexeme : string)
| JString (s : string)
| JArray (items : list JSON)
| JObject (members : list (string * JSON)).

Definition isWs (c : ascii) : bool :=
  Ascii.eqb c " " || Ascii.eqb c (Ascii.ascii_of_nat 9)
  || Ascii.eqb c (Ascii.ascii_of_nat 10) || Ascii.eqb c (Ascii.ascii_of_nat 13).

Fixpoint skipWs (s : string) : string :=
  match s with
  | String c r => if isWs c then skipWs r else s
  | EmptyString => s
  end.

Fixpoint stripPrefix (p s : string) : option string :=
  match p, s with
  | EmptyString, _ => Some s
  | String a p', String b s' => if Ascii.eqb a b then stripPrefix p' s' else None
  | String _ _, EmptyString => None
  end.

Definition isDigit (c : ascii) : bool :=
  let n := Ascii.nat_of_ascii c in Nat.leb 48 n && Nat.leb n 57.

(** The longest run of decimal digits at the head of [s], and the rest. *)
Fixpoint spanDigits (s : string) : string * string :=
  match s with
  | String c r =>
      if isDigit c then let '(ds, rest) := spanDigits r in (String c ds, rest)
      else (EmptyString, s)
  | EmptyString => (EmptyString, s)
  end.

Definition lexInt (s : string) : option (string * string) :=
  match s with
  | String c r =>
      if Ascii.eqb c "0" then Some ("0", r)
      else if isDigit c then let '(ds, rest) := spanDigits r in Some (String c ds, rest)
      else None
  | EmptyString => None
  end.

Definition lexDigits1 (s : string) : option (string * string) :=
  match spanDigits s with
  | (EmptyString, _) => None
  | (ds, rest) => Some (ds, rest)
  end.

(** [expect c s]: the text after [c] when [s] starts with [c]. *)
Definition expect (c : ascii) (s : string) : option string :=
  match s with
  | String c' r => if Ascii.eqb c' c then Some r else None
  | EmptyString => None
  end.

Definition lexFrac (s : string) : option (string * string) :=
  match expect "." s with
  | Some r => '(ds, rest) ← lexDigits1 r; Some (String "." ds, rest)
  | None => Some (EmptyString, s)
  end.

Definition lexSign (s : string) : string * string :=
  match expect "+" s with
  | Some r => ("+", r)
  | None =>
      match expect "-" s with
      | Some r => ("-", r)
      | None => (EmptyString, s)
      end
  end.

Definition lexExp (s : string) : option (string * string) :=
  match s with
  | String c r =>
      if Ascii.eqb c "e" || Ascii.eqb c "E" then
        let '(sg, r1) := lexSign r in
        '(ds, rest) ← lexDigits1 r1; Some (String c (sg +:+ ds), rest)
      else Some (EmptyString, s)
  | EmptyString => Some (EmptyString, s)
  end.

(** A JSON number: optional minus, integer part without a leading zero,
    optional fraction, optional exponent. *)
Definition lexNumber (s : string) : option (string * string) :=
  let '(neg, r0) := match expect "-" s with
                    | Some r => ("-", r)
                    | None => (EmptyString, s)
                    end in
  '(i, r1) ← lexInt r0;
  '(f, r2) ← lexFrac r1;
  '(e, r3) ← lexExp r2;
  Some (neg +:+ i +:+ f +:+ e, r3).

Definition hexVal (c : ascii) : option N :=
  let n := N.of_nat (Ascii.nat_of_ascii c) in
  if ((48 <=? n) && (n <=? 57))%N then Some (n - 48)%N
  else if ((97 <=? n) && (n <=? 102))%N then Some (n - 87)%N
  else if ((65 <=? n) && (n <=? 70))%N then Some (n - 55)%N
  else None.

(** The content of a string literal: bytes taken as they are, and
    UTF-16 code units written as four hexadecimal digits. *)
Inductive StrItem : Type :=
| Raw (c : ascii)
| Unit16 (u : N).

Definition simpleEscape (c : ascii) : option ascii :=
  if Ascii.eqb c DQUOTE then Some DQUOTE
  else if Ascii.eqb c BACKSLASH then Some BACKSLASH
  else if Ascii.eqb c "/" then Some "/"%char
  else if Ascii.eqb c "b" then Some (Ascii.ascii_of_nat 8)
  else if Ascii.eqb c "f" then Some (Ascii.ascii_of_nat 12)
  else if Ascii.eqb c "n" then Some (Ascii.ascii_of_nat 10)
  else if Ascii.eqb c "r" then Some (Ascii.ascii_of_nat 13)
  else if Ascii.eqb c "t" then Some (Ascii.ascii_of_nat 9)
  else None.

(** The text after an opening double quote, up to the closing one. *)
Fixpoint lexString (s : string) : option (list StrItem * string) :=
  match s with
  | EmptyString => None
  | String c r =>
      if Ascii.eqb c DQUOTE then Some ([], r)
      else if Ascii.eqb c BACKSLASH then
        match r with
        | EmptyString => None
        | String e r' =>
            if Ascii.eqb e "u" then
              match r' with
              | String h1 (String h2 (String h3 (String h4 r''))) =>
                  a ← hexVal h1; b ← hexVal h2; c' ← hexVal h3; d ← hexVal h4;
                  '(items, rest) ← lexString r'';
                  Some (Unit16 (((a * 16 + b) * 16 + c') * 16 + d)%N :: items, rest)
              | _ => None
              end
            else
              x ← simpleEscape e;
              '(items, rest) ← lexString r';
              Some (Raw x :: items, rest)
        end
      else if Nat.ltb (Ascii.nat_of_ascii c) 32 then None
      else '(items, rest) ← lexString r; Some (Raw c :: items, rest)
  end.

Definition byte (n : N) : ascii := Ascii.ascii_of_N n.

(** UTF-8 encoding of a code point (a lone surrogate is encoded like any
    other three-byte value). *)
Definition utf8 (cp : N) : string :=
  if (cp <? 128)%N then String (byte cp) EmptyString
  else if (cp <? 2048)%N then
    String (byte (192 + cp / 64)) (String (byte (128 + cp mod 64)) EmptyString)
  else if (cp <? 65536)%N then
    String (byte (224 + cp / 4096))
      (String (byte (128 + cp / 64 mod 64))
         (String (byte (128 + cp mod 64)) EmptyString))
  else
    String (byte (240 + cp / 262144))
      (String (byte (128 + cp / 4096 mod 64))
         (String (byte (128 + cp / 64 mod 64))
            (String (byte (128 + cp mod 64)) EmptyString))).

Definition isHigh (u : N) : bool := ((55296 <=? u) && (u <=? 56319))%N.
Definition isLow (u : N) : bool := ((56320 <=? u) && (u <=? 57343))%N.

Fixpoint assemble (l : list StrItem) : string :=
  match l with
  | [] => EmptyString
  | Raw c :: r => String c (assemble r)
  | Unit16 hi :: tl =>
      match tl with
      | Unit16 lo :: r =>
          if isHigh hi && isLow lo
          then utf8 (65536 + (hi - 55296) * 1024 + (lo - 56320))%N +:+ assemble r
          else utf8 hi +:+ assemble tl
      | _ => utf8 hi +:+ assemble tl
      end
  end.

Definition isChar (c x : ascii) : bool := Ascii.eqb c x.

(** Recursive descent over the JSON grammar.  [fuel] bounds the nesting
    of calls; [JSON_parse] gives enough of it for any text. *)
Fixpoint parseValue (fuel : nat) (s : string) : option (JSON * string) :=
  match fuel with
  | O => None
  | S fuel =>
      match skipWs s with
      | EmptyString => None
      | String c r =>
          if isChar c "{" then
            match expect "}" (skipWs r) with
            | Some r' => Some (JObject [], r')
            | None => '(ms, r') ← parseMembers fuel r; Some (JObject ms, r')
            end
          else if isChar c "[" then
            match expect "]" (skipWs r) with
            | Some r' => Some (JArray [], r')
            | None => '(vs, r') ← parseElements fuel r; Some (JArray vs, r')
            end
          else if isChar c DQUOTE then
            '(items, r') ← lexString r; Some (JString (assemble items), r')
          else if isChar c "t" then r' ← stripPrefix "rue" r; Some (JBool true, r')
          else if isChar c "f" then r' ← stripPrefix "alse" r; Some (JBool false, r')
          else if isChar c "n" then r' ← stripPrefix "ull" r; Some (JNull, r')
          else '(lx, r') ← lexNumber (String c r); Some (JNumber lx, r')
      end
  end
with parseElements (fuel : nat) (s : string) : option (list JSON * string) :=
  match fuel with
  | O => None
  | S fuel =>
      '(v, r) ← parseValue fuel s;
      match expect "," (skipWs r) with
      | Some r' => '(vs, r'') ← parseElements fuel r'; Some (v :: vs, r'')
      | None =>
          match expect "]" (skipWs r) with
          | Some r' => Some ([v], r')
          | None => None
          end
      end
  end
with parseMembers (fuel : nat) (s : string)
    : option (list (string * JSON) * string) :=
  match fuel with
  | O => None
  | S fuel =>
      r ← expect DQUOTE (skipWs s);
      '(k, r1) ← lexString r;
      r2 ← expect ":" (skipWs r1);
      '(v, r3) ← parseValue fuel r2;
      match expect "," (skipWs r3) with
      | Some r4 => '(ms, r5) ← parseMembers fuel r4; Some ((assemble k, v) :: ms, r5)
      | None =>
          match expect "}" (skipWs r3) with
          | Some r4 => Some ([(assemble k, v)], r4)
          | None => None
          end
      end
  end.

Definition parseFuel (s : string) : nat := 2 * String.length s + 2.

(** [JSON.parse(s)]: the whole text must be one value between optional
    white space; anything else throws a [SyntaxError]. *)
Definition JSON_parse (s : string) : Completion JSON :=
  match parseValue (parseFuel s) s with
  | Some (v, rest) =>
      match skipWs rest with
      | EmptyString => Return v
      | String _ _ => Throw (SyntaxError "Unexpected non-whitespace character after JSON")
      end
  | None => Throw (SyntaxError "Unexpected token in JSON")
  end.

(** Property lookup on a parsed value: the last member of that name. *)
Fixpoint lookupMember (k : string) (ms : list (string * JSON)) : option JSON :=
  match ms with
  | [] => None
  | (k', v) :: r =>
      match lookupMember k r with
      | Some v' => Some v'
      | None => if String.eqb k k' then Some v else None
      end
  end.

(** ** The response schema sent with an analysis request *)

Inductive Schema : Type :=
| STRING
| STRING_ENUM (values : list string)
| ARRAY (items : Schema)
| OBJECT (properties : list (string * Schema)) (required : list string).

Definition wordSchema : Schema :=
  OBJECT
    [ ("inputWord", STRING);
      ("coreWord", OBJECT [("jp", STRING); ("en", STRING); ("zh", STRING)]
                          ["jp"; "en"; "zh"]);
      ("pronunciation", OBJECT [("jp", STRING); ("en", STRING); ("zh", STRING)] []);
      ("definitions", OBJECT [("jp", STRING); ("jp_furigana", STRING);
                              ("en", STRING); ("zh", STRING)] []);
      ("examples", ARRAY (OBJECT [("text", STRING); ("translation", STRING);
                                  ("lang", STRING_ENUM ["jp"; "en"])] []));
      ("etymology", STRING);
      ("related", OBJECT [("synonyms", ARRAY STRING); ("antonyms", ARRAY STRING)]
                         ["synonyms"; "antonyms"]) ]
    ["coreWord"; "pronunciation"; "definitions"; "examples"; "etymology"; "related"].

Definition sentenceSchema : Schema :=
  OBJECT
    [ ("original", STRING);
      ("breakdown", ARRAY (OBJECT [("word", STRING); ("reading", STRING);
                                   ("partOfSpeech", STRING); ("meaning", STRING)] []));
      ("grammarAnalysis", OBJECT [("jp", STRING); ("en", STRING); ("zh", STRING)]
                                 ["jp"; "en"; "zh"]);
      ("translations", OBJECT [("jp", STRING); ("jp_furigana", STRING);
                               ("en", STRING); ("zh", STRING)]
                              ["jp"; "jp_furigana"; "en"; "zh"]) ]
    ["original"; "breakdown"; "grammarAnalysis"; "translations"].

(** What it means for a payload to match a schema (the contract the
    request states): the right kind of value, every required member
    present, every declared member that is present matching in turn. *)
Fixpoint conforms (sch : Schema) (v : JSON) {struct sch} : bool :=
  match sch, v with
  | STRING, JString _ => true
  | STRING_ENUM vs, JString x => bool_decide (x ∈ vs)
  | ARRAY it, JArray l => forallb (conforms it) l
  | OBJECT props req, JObject ms =>
      forallb (fun k => bool_decide (is_Some (lookupMember k ms))) req
      && (fix each (ps : list (string * Schema)) : bool :=
            match ps with
            | [] => true
            | (k, sk) :: ps' =>
                match lookupMember k ms with
                | Some vk => conforms sk vk
                | None => true
                end && each ps'
            end) props
  | _, _ => false
  end.

(** A payload misses a required field of the word schema when one of
    the six required top-level members is absent. *)
Definition missingRequired (v : JSON) : Prop :=
  match v with
  | JObject ms =>
      ∃ k, k ∈ ["coreWord"; "pronunciation"; "definitions"; "examples";
                "etymology"; "related"] ∧ lookupMember k ms = None
  | _ => False
  end.

(** ** Methods with state: state threaded through, exceptions on top

    A method run from state [s] ends in a completion and a state; what
    was done before a [throw] stays done. *)

Definition Eff (S A : Type) : Type := S → Completion A * S.

Global Instance Eff_ret {S} : MRet (Eff S) := fun A a st => (Return a, st).
Global Instance Eff_bind {S} : MBind (Eff S) := fun A B f m st =>
  match m st with
  | (Return a, st') => f a st'
  | (Throw e, st') => (Throw e, st')
  end.

Definition throw {S A} (e : Exn) : Eff S A := fun st => (Throw e, st).

(** [try { body } catch (e) { handler(e) }] *)
Definition tryCatch {S A} (body : Eff S A) (handler : Exn → Eff S A) : Eff S A :=
  fun st =>
    match body st with
    | (Throw e, st') => handler e st'
    | r => r
    end.

Definition liftC {S A} (c : Completion A) : Eff S A := fun st => (c, st).
Definition gets {S A} (f : S → A) : Eff S A := fun st => (Return (f st), st).
Definition modify {S} (f : S → S) : Eff S unit := fun st => (Return tt, f st).

(** ** GeminiService *)

Module Gemini.

Record GoogleGenAI : Type := { apiKey : string }.

(** The class instance: its only field is [ai]. *)
Record GeminiService : Type := { ai : option GoogleGenAI }.

Inductive Config : Type :=
| NoConfig
| JsonResponse (responseSchema : Schema)
| AudioResponse (voiceName : string).

Record Request : Type := {
  model : string;
  contents : string;
  config : Config
}.

Record InlineData : Type := { data : string }.
Record Part : Type := { inlineData : option InlineData }.
Record Content : Type := { parts : option (list Part) }.
Record Candidate : Type := { content : option Content }.

(** The fields of a [generateContent] response that the class reads. *)
Record Response : Type := {
  text : option string;
  candidates : option (list Candidate)
}.

Inductive Lang : Type := JP | EN | ZH.

Inductive Event : Type :=
| ConsoleError (label : string) (e : Exn)
| Sent (r : Request)
| Played (base64Audio : string).

(** State threaded through a method: the instance and what the outside
    has seen so far (oldest first). *)
Record State : Type := {
  this : GeminiService;
  trace : list Event
}.

Abbreviation M := (Eff State).

(** The state after one more event has been seen. *)
Definition logged (st : State) (ev : Event) : State :=
  {| this := this st; trace := trace st ++ [ev] |}.

Definition emit (ev : Event) : M unit :=
  modify (fun st => logged st ev).

Definition wordPrompt (query : string) : string :=
  join (String LF EmptyString)
    [ "";
      "      Analyze the following input: " +:+ dq +:+ query +:+ dq +:+ ". ";
      "      Input language could be Japanese, English, or Chinese.";
      "      Identify the core vocabulary word intended by the user.";
      "      Provide a trilingual dictionary entry (Japanese, English, Chinese).";
      "      ";
      "      For the Japanese Definition:";
      "      1. Provide a standard text version.";
      "      2. Provide a version with Furigana using HTML <ruby> tags (e.g., <ruby>日本<rt>にほん</rt></ruby>).";
      "      ";
      "      Include pronunciations, example sentences, etymology, synonyms, and antonyms.";
      "    " ].

Definition sentencePrompt (sentence : string) : string :=
  join (String LF EmptyString)
    [ "";
      "      Analyze the following sentence deeply: " +:+ dq +:+ sentence +:+ dq +:+ ".";
      "      The sentence could be in Japanese, English, or Chinese.";
      "      ";
      "      1. Break down the sentence word by word (or by grammatical unit).";
      "      2. Provide a detailed grammar analysis explaining the structure, tense, and nuances.";
      "      3. Provide the grammar analysis in THREE languages: Japanese, English, and Chinese.";
      "      4. Translate the full sentence into Japanese, English, and Chinese.";
      "      ";
      "      For ANY Japanese text output (translations, grammar analysis, etc.):";
      "      Provide a version that uses HTML <ruby> tags for Furigana readings where appropriate (e.g. <ruby>私<rt>わたし</rt></ruby>は...).";
      "    " ].

Definition imagePrompt (word : string) : string :=
  "A clear, high-quality, photorealistic or artistic illustration representing the concept of: "
  +:+ dq +:+ word +:+ dq
  +:+ ". The image should be wide and suitable for a header.".

(** The four request objects handed to [models.generateContent]. *)
Definition wordRequest (prompt : string) : Request :=
  {| model := "gemini-2.5-flash";
     contents := prompt;
     config := JsonResponse wordSchema |}.

Definition sentenceRequest (prompt : string) : Request :=
  {| model := "gemini-2.5-flash";
     contents := prompt;
     config := JsonResponse sentenceSchema |}.

Definition imageRequest (word : string) : Request :=
  {| model := "gemini-2.5-flash-image";
     contents := imagePrompt word;
     config := NoConfig |}.

Definition speechRequest (cleanText voiceName : string) : Request :=
  {| model := "gemini-2.5-flash-preview-tts";
     contents := cleanText;
     config := AudioResponse voiceName |}.

Definition missingKeyMessage : string :=
  "API Key is missing. Please set the API_KEY environment variable in your Vercel settings or .env file.".

Section Service.

(** [process.env.API_KEY]. *)
Variable API_KEY : option string.

(** The backend behind [models.generateContent]: it answers or the
    promise rejects. *)
Variable generateContent : GoogleGenAI → Request → Completion Response.

(** The browser side of speech: decoding the base64 PCM payload and
    handing it to the audio sink; it may throw. *)
Variable playAudio : string → Completion unit.

(** [new GeminiService()].  The SDK constructor only stores its
    options, so the guarded [new GoogleGenAI] has nothing to throw. *)
Definition constructor : GeminiService :=
  match API_KEY with
  | Some k => if truthy k then {| ai := Some {| apiKey := k |} |}
              else {| ai := None |}
  | None => {| ai := None |}
  end.

Definition getClient : M GoogleGenAI :=
  fun st =>
    match ai (this st) with
    | Some c => (Return c, st)
    | None =>
        match API_KEY with
        | Some k =>
            if truthy k then
              let c := {| apiKey := k |} in
              (Return c, {| this := {| ai := Some c |}; trace := trace st |})
            else (Throw (Error missingKeyMessage), st)
        | None => (Throw (Error missingKeyMessage), st)
        end
    end.

(** [await client.models.generateContent(request)]. *)
Definition call (client : GoogleGenAI) (r : Request) : M Response :=
  _ ← emit (Sent r);
  liftC (generateContent client r).

(** The value returned is the parsed text itself: the cast to
    [WordData] is a type annotation and checks nothing. *)
Definition analyzeWord (query : string) : M JSON :=
  let prompt := wordPrompt query in
  client ← getClient;
  response ← call client (wordRequest prompt);
  match text response with
  | Some t =>
      if truthy t then liftC (JSON_parse t)
      else throw (Error "No text response from Gemini")
  | None => throw (Error "No text response from Gemini")
  end.

Definition analyzeSentence (sentence : string) : M JSON :=
  let prompt := sentencePrompt sentence in
  client ← getClient;
  response ← call client (sentenceRequest prompt);
  match text response with
  | Some t =>
      if truthy t then liftC (JSON_parse t)
      else throw (Error "No text response from Gemini")
  | None => throw (Error "No text response from Gemini")
  end.

(** [response.candidates?.[0]?.content?.parts] *)
Definition firstParts (response : Response) : option (list Part) :=
  cs ← candidates response;
  c ← head cs;
  ct ← content c;
  parts ct.

(** The [for] loop of [generateImage]: the first part that carries
    inline data decides. *)
Fixpoint firstInline (ps : list Part) : option string :=
  match ps with
  | [] => None
  | p :: r =>
      match inlineData p with
      | Some d => Some ("data:image/png;base64," +:+ data d)
      | None => firstInline r
      end
  end.

Definition generateImage (word : string) : M (option string) :=
  tryCatch
    (client ← getClient;
     response ← call client (imageRequest word);
     mret (firstInline (default [] (firstParts response))))
    (fun e =>
       _ ← emit (ConsoleError "Image generation failed" e);
       mret None).

Definition voiceFor (lang : Lang) : string :=
  match lang with JP => "Kore" | EN => "Fenrir" | ZH => "Puck" end.

Definition generateSpeech (txt : string) (lang : Lang) : M unit :=
  let cleanText := stripTags txt in
  let voiceName := voiceFor lang in
  tryCatch
    (client ← getClient;
     response ← call client (speechRequest cleanText voiceName);
     let base64Audio :=
       (ps ← firstParts response; p ← head ps; d ← inlineData p; Some (data d)) in
     if truthy_opt base64Audio then
       _ ← liftC (playAudio (default "" base64Audio));
       emit (Played (default "" base64Audio))
     else mret tt)
    (fun e => emit (ConsoleError "TTS failed" e)).

End Service.

(** A fresh instance with nothing observed yet. *)
Definition fresh (API_KEY : option string) : State :=
  {| this := constructor API_KEY; trace := [] |}.

End Gemini.

(** ** The App component *)

(** White space and line terminators of [String.prototype.trim], as
    UTF-8: six ASCII controls and the space, U+00A0, U+1680,
    U+2000..U+200A, U+2028, U+2029, U+202F, U+205F, U+3000, U+FEFF. *)
Definition isAsciiSpace (c : ascii) : bool :=
  let n := Ascii.nat_of_ascii c in
  (Nat.leb 9 n && Nat.leb n 13) || Nat.eqb n 32.

Definition isSpace2 (a b : ascii) : bool :=
  Nat.eqb (Ascii.nat_of_ascii a) 194 && Nat.eqb (Ascii.nat_of_ascii b) 160.

Definition isSpace3 (a b c : ascii) : bool :=
  let x := Ascii.nat_of_ascii a in
  let y := Ascii.nat_of_ascii b in
  let z := Ascii.nat_of_ascii c in
  (Nat.eqb x 225 && Nat.eqb y 154 && Nat.eqb z 128)
  || (Nat.eqb x 226 && Nat.eqb y 128
      && ((Nat.leb 128 z && Nat.leb z 138) || Nat.eqb z 168 || Nat.eqb z 169
          || Nat.eqb z 175))
  || (Nat.eqb x 226 && Nat.eqb y 129 && Nat.eqb z 159)
  || (Nat.eqb x 227 && Nat.eqb y 128 && Nat.eqb z 128)
  || (Nat.eqb x 239 && Nat.eqb y 187 && Nat.eqb z 191).

(** Drops the white space at the head of [s]; with [back] the text is
    read from its end, so the bytes of a character come last first. *)
Fixpoint dropSpace (back : bool) (s : string) : string :=
  match s with
  | EmptyString => s
  | String a r =>
      if isAsciiSpace a then dropSpace back r
      else
        match r with
        | EmptyString => s
        | String b r2 =>
            if (if back then isSpace2 b a else isSpace2 a b) then dropSpace back r2
            else
              match r2 with
              | EmptyString => s
              | String c r3 =>
                  if (if back then isSpace3 c b a else isSpace3 a b c)
                  then dropSpace back r3
                  else s
              end
        end
  end.

Definition trim (s : string) : string :=
  String.rev (dropSpace true (String.rev (dropSpace false s))).

Module App.

Definition HISTORY_KEY : string := "trilingua_history".

(** The [useState] cells of the component. *)
Record AppState : Type := {
  query : string;
  currentData : option WordData;
  currentImage : option string;
  loadingState : LoadingState;
  error : option string;
  history : list HistoryItem;
  isSidebarOpen : bool
}.

Definition initialState : AppState :=
  {| query := ""; currentData := None; currentImage := None;
     loadingState := IDLE; error := None; history := [];
     isSidebarOpen := false |}.

(** The component and what it has done to the outside: the calls of
    [console.error], the values [setLoadingState] was given, and the
    histories serialised under [HISTORY_KEY] by the save effect
    (oldest first in all three). *)
Record World : Type := {
  state : AppState;
  console : list (string * Exn);
  transitions : list LoadingState;
  persisted : list (list HistoryItem)
}.

Definition initialWorld : World :=
  {| state := initialState; console := []; transitions := []; persisted := [] |}.

Abbreviation M := (Eff World).

Definition onState (f : AppState → AppState) : M unit :=
  modify (fun w => {| state := f (state w); console := console w;
                      transitions := transitions w; persisted := persisted w |}).

Definition setQuery (q : string) : M unit :=
  onState (fun s => {| query := q; currentData := currentData s;
                       currentImage := currentImage s; loadingState := loadingState s;
                       error := error s; history := history s;
                       isSidebarOpen := isSidebarOpen s |}).

Definition setCurrentData (d : option WordData) : M unit :=
  onState (fun s => {| query := query s; currentData := d;
                       currentImage := currentImage s; loadingState := loadingState s;
                       error := error s; history := history s;
                       isSidebarOpen := isSidebarOpen s |}).

Definition setCurrentImage (i : option string) : M unit :=
  onState (fun s => {| query := query s; currentData := currentData s;
                       currentImage := i; loadingState := loadingState s;
                       error := error s; history := history s;
                       isSidebarOpen := isSidebarOpen s |}).

Definition setLoadingState (l : LoadingState) : M unit :=
  modify (fun w =>
    let s := state w in
    {| state := {| query := query s; currentData := currentData s;
                   currentImage := currentImage s; loadingState := l;
                   error := error s; history := history s;
                   isSidebarOpen := isSidebarOpen s |};
       console := console w;
       transitions := transitions w ++ [l];
       persisted := persisted w |}).

Definition setError (e : option string) : M unit :=
  onState (fun s => {| query := query s; currentData := currentData s;
                       currentImage := currentImage s; loadingState := loadingState s;
                       error := e; history := history s;
                       isSidebarOpen := isSidebarOpen s |}).

(** The save effect: [localStorage.setItem(HISTORY_KEY,
    JSON.stringify(history))]. *)
Definition saveHistory : M unit :=
  modify (fun w => {| state := state w; console := console w;
                      transitions := transitions w;
                      persisted := persisted w ++ [history (state w)] |}).

(** [setHistory(updater)]: the array the updater returns is a new value
    of the [history] cell, so the save effect runs after the render. *)
Definition setHistory (updater : list HistoryItem → list HistoryItem) : M unit :=
  _ ← onState (fun s => {| query := query s; currentData := currentData s;
                           currentImage := currentImage s; loadingState := loadingState s;
                           error := error s; history := updater (history s);
                           isSidebarOpen := isSidebarOpen s |});
  saveHistory.

Definition consoleError (label : string) (e : Exn) : M unit :=
  modify (fun w => {| state := state w; console := console w ++ [(label, e)];
                      transitions := transitions w; persisted := persisted w |}).

Definition analysisFailedMessage : string :=
  "Unable to analyze the word. Please check your API key or try again.".

Section Component.

(** [geminiService] as the component sees it, by the signatures of
    its two methods: a promise of a [WordData], a promise of an
    image or [null]. *)
Variable analyzeWord : string → Completion WordData.
Variable generateImage : string → Completion (option string).

(** [nowId] and [nowTs] are the two readings of [Date.now()]. *)
Definition handleSearch (nowId nowTs : Z) : M unit :=
  q ← gets (fun w => query (state w));
  if negb (truthy (trim q)) then mret tt
  else
    _ ← setLoadingState ANALYZING;
    _ ← setError None;
    _ ← setCurrentData None;
    _ ← setCurrentImage None;
    tryCatch
      (d ← liftC (analyzeWord q);
       _ ← setCurrentData (Some d);
       _ ← setLoadingState GENERATING_IMAGE;
       image ← liftC (generateImage (en (coreWord d)));
       _ ← (if truthy_opt image then setCurrentImage image else mret tt);
       _ ← setLoadingState COMPLETE;
       let newItem :=
         {| id := pretty nowId;
            timestamp := nowTs;
            word := jp (coreWord d);
            data := d;
            imageUrl := if truthy_opt image then image else None |} in
       setHistory (historyUpdater newItem d))
      (fun err =>
         _ ← consoleError "" err;
         _ ← setError (Some analysisFailedMessage);
         setLoadingState ERROR).

Definition loadFromHistory (item : HistoryItem) : M unit :=
  _ ← setCurrentData (Some (data item));
  _ ← setCurrentImage (imageUrl item);
  _ ← setQuery (if truthy (inputWord (data item)) then inputWord (data item)
                else jp (coreWord (data item)));
  setLoadingState COMPLETE.

(** The view of a parsed blob at type [HistoryItem[]]: the code
    passes [JSON.parse(saved)] to [setHistory] unchecked. *)
Variable asHistory : JSON → list HistoryItem.

(** The load effect run on mount; [saved] is
    [localStorage.getItem(HISTORY_KEY)]. *)
Definition loadHistory (saved : option string) : M unit :=
  match saved with
  | Some blob =>
      if truthy blob then
        tryCatch
          (v ← liftC (JSON_parse blob);
           setHistory (fun _ => asHistory v))
          (fun e => consoleError "Failed to parse history" e)
      else mret tt
  | None => mret tt
  end.

(** Mounting the component.  Both effects run after the first render:
    the load effect with the blob read from storage, then the save
    effect with the [history] of that render; a [setHistory] made by the
    load effect takes hold in the next render, whose save effect then
    runs. *)
Definition mount (saved : option string) : M unit :=
  _ ← saveHistory;
  loadHistory saved.

End Component.

End App.

(** ** What the page shows, and a session of user actions *)

Global Instance LoadingState_eq_dec : EqDecision LoadingState.
Proof. solve_decision. Defined.

(** The conditional parts of the JSX that [App] returns. *)
Record View : Type := {
  searchDisabled : bool;
  placeholder : bool;
  skeleton : option string;
  errorBanner : option string;
  wordCard : option (WordData * option string)
}.

Definition render (st : App.AppState) : View :=
  let busy := bool_decide (App.loadingState st = ANALYZING)
              || bool_decide (App.loadingState st = GENERATING_IMAGE) in
  {| searchDisabled := busy || negb (truthy (trim (App.query st)));
     placeholder := bool_decide (App.loadingState st = IDLE)
                    && negb (bool_decide (is_Some (App.currentData st)));
     skeleton :=
       if busy then
         Some (if bool_decide (App.loadingState st = ANALYZING)
               then "Analyzing language patterns..."
               else "Painting visualization...")
       else None;
     errorBanner :=
       match App.error st with
       | Some m => if truthy m then Some m else None
       | None => None
       end;
     wordCard := d ← App.currentData st; Some (d, App.currentImage st) |}.





(** ** Predicates the properties are stated with *)

Definition jpKey (item : HistoryItem) : string := jp (coreWord (data item)).
Definition enKey (item : HistoryItem) : string := en (coreWord (data item)).

(** No two items of a history share a [coreWord.jp], and no two share a
    [coreWord.en]. *)
Definition distinctKeys (h : list HistoryItem) : Prop :=
  NoDup (jpKey <$> h) ∧ NoDup (enKey <$> h).

(** [a] was made after [b]. *)
Definition newer (a b : HistoryItem) : Prop := (timestamp b < timestamp a)%Z.

(** Each item of a sequence of inserts is made after the one before it,
    the first after time [t]. *)
Fixpoint increasing (t : Z) (items : list HistoryItem) : Prop :=
  match items with
  | [] => True
  | it :: rest => (t < timestamp it)%Z ∧ increasing (timestamp it) rest
  end.

(** A time value [Date] can hold. *)
Definition validTime (t : Z) : Prop := (Z.abs t ≤ maxTimeValue)%Z.

Global Instance validTime_dec t : Decision (validTime t).
Proof. unfold validTime. apply _. Defined.



(** The payload [generateSpeech] reads from a response:
    [candidates?.[0]?.content?.parts?.[0]?.inlineData?.data]. *)
Definition firstAudio (response : Gemini.Response) : option string :=
  ps ← Gemini.firstParts response;
  p ← head ps;
  d ← Gemini.inlineData p;
  Some (Gemini.data d).


(** ** Sample records used to exercise the statements *)

Definition mkWord (input j e : string) (defEn : string) : WordData :=
  {| inputWord := input;
     coreWord := {| jp := j; en := e; zh := "字" |};
     pronunciation := {| jp := "よみ"; en := "ri:d"; zh := "zi" |};
     definitions := {| Definitions.jp := "定義"; Definitions.jp_furigana := "定義";
                       Definitions.en := defEn; Definitions.zh := "定义" |};
     examples := [];
     etymology := "";
     related := {| synonyms := []; antonyms := [] |} |}.

Definition mkItem (t : Z) (d : WordData) : HistoryItem :=
  {| id := pretty t; timestamp := t; word := jp (coreWord d); data := d;
     imageUrl := None |}.

(** The [n]-th of a family of records with pairwise different keys. *)
Definition nthItem (n : nat) : HistoryItem :=
  mkItem (Z.of_nat n) (mkWord (pretty n) ("語" +:+ pretty n) ("word" +:+ pretty n) "d").

Definition fullHistory : list HistoryItem := map nthItem (seq 0 50).

Definition oldDog : HistoryItem := mkItem 1 (mkWord "hound" "犬" "hound" "a dog").
Definition oldCat : HistoryItem := mkItem 2 (mkWord "cat" "猫" "cat" "a cat").
Definition newDog : HistoryItem := mkItem 3 (mkWord "dog" "犬" "dog" "a dog").

(** The definition string with a ruby annotation. *)
Definition rubySample : string := "<ruby>日本<rt>にほん</rt></ruby>は".

(** A backend whose answer carries the core word and nothing else. *)
Definition partialText : string :=
  "{" +:+ dq +:+ "coreWord" +:+ dq +:+ ":{"
  +:+ dq +:+ "jp" +:+ dq +:+ ":" +:+ dq +:+ "犬" +:+ dq +:+ ","
  +:+ dq +:+ "en" +:+ dq +:+ ":" +:+ dq +:+ "dog" +:+ dq +:+ ","
  +:+ dq +:+ "zh" +:+ dq +:+ ":" +:+ dq +:+ "狗" +:+ dq +:+ "}}".

Definition partialPayload : JSON :=
  JObject [("coreWord", JObject [("jp", JString "犬"); ("en", JString "dog");
                                 ("zh", JString "狗")])].

Definition partialBackend (_ : Gemini.GoogleGenAI) (_ : Gemini.Request)
    : Completion Gemini.Response :=
  Return {| Gemini.text := Some partialText; Gemini.candidates := None |}.

Definition failingBackend (_ : Gemini.GoogleGenAI) (_ : Gemini.Request)
    : Completion Gemini.Response :=
  Throw (Rejected "503 Service Unavailable").

Definition silentAudio (_ : string) : Completion unit := Return tt.

(** A stored record whose input holds a comma, and one whose English
    definition holds a double quote and a comma. *)
Definition commaItem : HistoryItem := mkItem 5 (mkWord "a,b" "犬" "dog" "d").

Definition quotedDefinition : string :=
  "a " +:+ dq +:+ "pet" +:+ dq +:+ ", loyal".

Definition quoteItem : HistoryItem :=
  mkItem 1700000000000 (mkWord "dog" "犬" "dog" quotedDefinition).

Definition searching (q : string) : App.World :=
  {| App.state := {| App.query := q; App.currentData := None;
                     App.currentImage := None; App.loadingState := IDLE;
                     App.error := None; App.history := [oldCat; oldDog];
                     App.isSidebarOpen := false |};
     App.console := []; App.transitions := []; App.persisted := [] |}.

Definition answers (d : WordData) (_ : string) : Completion WordData := Return d.
Definition refuses (_ : string) : Completion WordData :=
  Throw (Error "No text response from Gemini").
Definition noImage (_ : string) : Completion (option string) := Return None.
Definition noHistory (_ : JSON) : list HistoryItem := [].

(** The dog looked up once more, later. *)
Definition againDog : HistoryItem := mkItem 9 (data newDog).

(** An instance made without a credential, nothing observed yet. *)
Definition bare : Gemini.State :=
  {| Gemini.this := {| Gemini.ai := None |}; Gemini.trace := [] |}.

(** A response whose first candidate holds the given parts. *)
Definition respond (ps : list Gemini.Part) : Gemini.Response :=
  {| Gemini.text := None;
     Gemini.candidates :=
       Some [ {| Gemini.content := Some {| Gemini.parts := Some ps |} |} ] |}.

Definition textPart : Gemini.Part := {| Gemini.inlineData := None |}.
Definition dataPart (d : string) : Gemini.Part :=
  {| Gemini.inlineData := Some {| Gemini.data := d |} |}.

(** A backend that answers every request with a text part followed by
    a part of inline data. *)
Definition mediaBackend (_ : Gemini.GoogleGenAI) (_ : Gemini.Request)
    : Completion Gemini.Response :=
  Return (respond [textPart; dataPart "QUJD"]).

(** The search box holding only an ASCII space and an ideographic
    space. *)
Definition blankQuery : string := " 　".


(** An image call that has no image for the dog and rejects any other
    word. *)
Definition dogOnlyImage (word : string) : Completion (option string) :=
  if String.eqb word "dog" then Return None
  else Throw (Rejected "image backend down").

(** * Properties *)

(** ** The platform models on known values *)

Example toISOString_epoch : toISOString 0 = Return "1970-01-01T00:00:00.000Z".
Proof. reflexivity. Qed.

Example toISOString_leap_day :
  toISOString 1709251199999 = Return "2024-02-29T23:59:59.999Z".
Proof. reflexivity. Qed.

Example toISOString_before_epoch :
  toISOString (-1) = Return "1969-12-31T23:59:59.999Z".
Proof. reflexivity. Qed.

Example toISOString_last_instant :
  toISOString 8640000000000000 = Return "+275760-09-13T00:00:00.000Z"
  ∧ toISOString 8640000000000001 = Throw (RangeError "Invalid time value").
Proof. split; reflexivity. Qed.

Example JSON_parse_nested :
  JSON_parse (" [1, -2.5e3, true, null, {" +:+ dq +:+ "k" +:+ dq +:+ " : [ ]}] ")
  = Return (JArray [JNumber "1"; JNumber "-2.5e3"; JBool true; JNull;
                    JObject [("k", JArray [])]]).
Proof. vm_compute. reflexivity. Qed.

Example JSON_parse_escape :
  JSON_parse (dq +:+ String BACKSLASH "u65e5" +:+ String BACKSLASH "n" +:+ dq)
  = Return (JString ("日" +:+ String LF EmptyString)).
Proof. vm_compute. reflexivity. Qed.

Example JSON_parse_rejects :
  JSON_parse "" = Throw (SyntaxError "Unexpected token in JSON")
  ∧ JSON_parse "[1,]" = Throw (SyntaxError "Unexpected token in JSON")
  ∧ JSON_parse "01"
    = Throw (SyntaxError "Unexpected non-whitespace character after JSON")
  ∧ JSON_parse "{} x"
    = Throw (SyntaxError "Unexpected non-whitespace character after JSON").
Proof. repeat split. Qed.

Example trim_blank : trim " 　 " = "" ∧ trim "  犬 dog 　" = "犬 dog".
Proof. split; vm_compute; reflexivity. Qed.

(** ** [JSON.parse]: the fuel is enough *)

Lemma skipWs_length (s : string) : (String.length (skipWs s) ≤ String.length s)%nat.
Proof.
  induction s as [|c s IH]; simpl; [lia|].
  destruct (isWs c); simpl; lia.
Qed.

Lemma expect_length (c : ascii) (s r : string) :
  expect c s = Some r → String.length s = S (String.length r).
Proof.
  destruct s as [|c' s]; simpl; [discriminate|].
  destruct (Ascii.eqb c' c); [|discriminate]. by intros [= ->].
Qed.

Lemma stripPrefix_length (p s r : string) :
  stripPrefix p s = Some r → (String.length r ≤ String.length s)%nat.
Proof.
  revert s. induction p as [|a p IH]; intros [|b s]; simpl; try discriminate.
  - intros [= <-]. simpl. lia.
  - intros [= <-]. simpl. lia.
  - destruct (Ascii.eqb a b); [|discriminate]. intros H. apply IH in H. lia.
Qed.

Lemma spanDigits_length (s ds r : string) :
  spanDigits s = (ds, r) → (String.length r ≤ String.length s)%nat.
Proof.
  revert ds r. induction s as [|c s IH]; simpl; intros ds r.
  - intros [= <- <-]. simpl. lia.
  - destruct (isDigit c).
    + destruct (spanDigits s) as [ds' r'] eqn:Hs. intros [= <- <-].
      specialize (IH _ _ eq_refl). lia.
    + intros [= <- <-]. simpl. lia.
Qed.

Lemma lexDigits1_length (s ds r : string) :
  lexDigits1 s = Some (ds, r) → (String.length r ≤ String.length s)%nat.
Proof.
  unfold lexDigits1. destruct (spanDigits s) as [ds' r'] eqn:Hs.
  apply spanDigits_length in Hs. destruct ds'; [discriminate|].
  intros [= <- <-]. lia.
Qed.

Lemma lexInt_length (s i r : string) :
  lexInt s = Some (i, r) → (String.length r < String.length s)%nat.
Proof.
  destruct s as [|c s]; simpl; [discriminate|].
  destruct (Ascii.eqb c "0"); [intros [= <- <-]; lia|].
  destruct (isDigit c); [|discriminate].
  destruct (spanDigits s) as [ds r'] eqn:Hs. apply spanDigits_length in Hs.
  intros [= <- <-]. lia.
Qed.

Lemma lexFrac_length (s f r : string) :
  lexFrac s = Some (f, r) → (String.length r ≤ String.length s)%nat.
Proof.
  unfold lexFrac. destruct (expect "." s) as [r0|] eqn:He.
  - apply expect_length in He.
    destruct (lexDigits1 r0) as [[ds rest]|] eqn:Hd; simpl; [|discriminate].
    apply lexDigits1_length in Hd. intros [= <- <-]. lia.
  - intros [= <- <-]. lia.
Qed.

Lemma lexSign_length (s sg r : string) :
  lexSign s = (sg, r) → (String.length r ≤ String.length s)%nat.
Proof.
  unfold lexSign. destruct (expect "+" s) as [r0|] eqn:He.
  - apply expect_length in He. intros [= <- <-]. lia.
  - destruct (expect "-" s) as [r0|] eqn:He2.
    + apply expect_length in He2. intros [= <- <-]. lia.
    + intros [= <- <-]. lia.
Qed.

Lemma lexExp_length (s e r : string) :
  lexExp s = Some (e, r) → (String.length r ≤ String.length s)%nat.
Proof.
  destruct s as [|c s]; simpl; [intros [= <- <-]; simpl; lia|].
  destruct (Ascii.eqb c "e" || Ascii.eqb c "E").
  - destruct (lexSign s) as [sg r1] eqn:Hs. apply lexSign_length in Hs.
    destruct (lexDigits1 r1) as [[ds rest]|] eqn:Hd; simpl; [|discriminate].
    apply lexDigits1_length in Hd. intros [= <- <-]. lia.
  - intros [= <- <-]. simpl. lia.
Qed.

Lemma lexNumber_length (s lx r : string) :
  lexNumber s = Some (lx, r) → (String.length r < String.length s)%nat.
Proof.
  unfold lexNumber.
  assert (Hneg : ∀ neg r0,
            match expect "-" s with Some r => ("-", r) | None => ("", s) end = (neg, r0) →
            (String.length r0 ≤ String.length s)%nat).
  { intros neg r0. destruct (expect "-" s) as [r1|] eqn:He.
    - apply expect_length in He. intros [= <- <-]. lia.
    - intros [= <- <-]. lia. }
  destruct (match expect "-" s with Some r => ("-", r) | None => ("", s) end)
    as [neg r0] eqn:Hn.
  specialize (Hneg _ _ eq_refl).
  destruct (lexInt r0) as [[i r1]|] eqn:Hi; simpl; [|discriminate].
  apply lexInt_length in Hi.
  destruct (lexFrac r1) as [[f r2]|] eqn:Hf; simpl; [|discriminate].
  apply lexFrac_length in Hf.
  destruct (lexExp r2) as [[e r3]|] eqn:Hx; simpl; [|discriminate].
  apply lexExp_length in Hx. intros [= <- <-]. lia.
Qed.

Lemma lexString_length (s : string) (k : list StrItem) (r : string) :
  lexString s = Some (k, r) → (String.length r < String.length s)%nat.
Proof.
  remember (String.length s) as n eqn:Hn. revert s k r Hn.
  induction n as [n IH] using lt_wf_ind. intros s k r Hn.
  destruct s as [|c s]; simpl; [discriminate|]. simpl in Hn.
  destruct (Ascii.eqb c DQUOTE); [intros [= <- <-]; lia|].
  destruct (Ascii.eqb c BACKSLASH).
  - destruct s as [|e s']; [discriminate|].
    destruct (Ascii.eqb e "u").
    + destruct s' as [|h1 [|h2 [|h3 [|h4 s'']]]]; try discriminate.
      destruct (hexVal h1); simpl; [|discriminate].
      destruct (hexVal h2); simpl; [|discriminate].
      destruct (hexVal h3); simpl; [|discriminate].
      destruct (hexVal h4); simpl; [|discriminate].
      destruct (lexString s'') as [[items rest]|] eqn:Hl; simpl; [|discriminate].
      intros [= <- <-]. apply (IH (String.length s'')) in Hl; simpl in *; lia.
    + destruct (simpleEscape e); simpl; [|discriminate].
      destruct (lexString s') as [[items rest]|] eqn:Hl; simpl; [|discriminate].
      intros [= <- <-]. apply (IH (String.length s')) in Hl; simpl in *; lia.
  - destruct (Nat.ltb _ _); [discriminate|].
    destruct (lexString s) as [[items rest]|] eqn:Hl; simpl; [|discriminate].
    intros [= <- <-]. apply (IH (String.length s)) in Hl; simpl in *; lia.
Qed.

Section ParserFuel.

Local Arguments stripPrefix : simpl never.
Local Arguments lexString : simpl never.
Local Arguments lexNumber : simpl never.
Local Arguments skipWs : simpl never.
Local Arguments expect : simpl never.

Tactic Notation "bind_pair" hyp(H) "as" ident(a) ident(b) ident(E) :=
  match type of H with
  | mbind _ ?x = Some _ =>
      destruct x as [[a b]|] eqn:E; simpl in H |- *; [|discriminate H]
  end.

Tactic Notation "bind_one" hyp(H) "as" ident(a) ident(E) :=
  match type of H with
  | mbind _ ?x = Some _ =>
      destruct x as [a|] eqn:E; simpl in H |- *; [|discriminate H]
  end.

Tactic Notation "split_expect" hyp(H) "as" ident(a) ident(E) :=
  match type of H with
  | match expect ?c ?s with _ => _ end = Some _ =>
      destruct (expect c s) as [a|] eqn:E
  end.

Lemma parse_length (m : nat) :
  (∀ s v r, parseValue m s = Some (v, r) → (String.length r < String.length s)%nat)
  ∧ (∀ s vs r, parseElements m s = Some (vs, r) → (String.length r < String.length s)%nat)
  ∧ (∀ s ms r, parseMembers m s = Some (ms, r) → (String.length r < String.length s)%nat).
Proof.
  induction m as [|m (IHv & IHe & IHm)]; [repeat split; intros; discriminate|].
  repeat split.
  - intros s v r H. simpl in H.
    pose proof (skipWs_length s) as Hws.
    destruct (skipWs s) as [|c r0]; [discriminate|]. simpl in Hws.
    pose proof (skipWs_length r0).
    destruct (isChar c "{").
    { split_expect H as r1 E.
      - apply expect_length in E. injection H as <- <-. lia.
      - bind_pair H as ms r1 E1. apply IHm in E1. injection H as <- <-. lia. }
    destruct (isChar c "[").
    { split_expect H as r1 E.
      - apply expect_length in E. injection H as <- <-. lia.
      - bind_pair H as vs r1 E1. apply IHe in E1. injection H as <- <-. lia. }
    destruct (isChar c DQUOTE).
    { bind_pair H as k r1 E. apply lexString_length in E. injection H as <- <-. lia. }
    destruct (isChar c "t").
    { bind_one H as r1 E. apply stripPrefix_length in E. injection H as <- <-. lia. }
    destruct (isChar c "f").
    { bind_one H as r1 E. apply stripPrefix_length in E. injection H as <- <-. lia. }
    destruct (isChar c "n").
    { bind_one H as r1 E. apply stripPrefix_length in E. injection H as <- <-. lia. }
    bind_pair H as lx r1 E. apply lexNumber_length in E. injection H as <- <-.
    simpl in E. lia.
  - intros s vs r H. simpl in H.
    bind_pair H as v r1 E. apply IHv in E.
    pose proof (skipWs_length r1).
    split_expect H as r2 E2.
    + apply expect_length in E2. bind_pair H as vs' r3 E3. apply IHe in E3.
      injection H as <- <-. lia.
    + split_expect H as r2 E3; [|discriminate].
      apply expect_length in E3. injection H as <- <-. lia.
  - intros s ms r H. simpl in H.
    pose proof (skipWs_length s).
    bind_one H as r0 E. apply expect_length in E.
    bind_pair H as k r1 E1. apply lexString_length in E1.
    pose proof (skipWs_length r1).
    bind_one H as r2 E2. apply expect_length in E2.
    bind_pair H as v r3 E3. apply IHv in E3.
    pose proof (skipWs_length r3).
    split_expect H as r4 E4.
    + apply expect_length in E4. bind_pair H as ms' r5 E5. apply IHm in E5.
      injection H as <- <-. lia.
    + split_expect H as r4 E5; [|discriminate].
      apply expect_length in E5. injection H as <- <-. lia.
Qed.

(** A parse that succeeds with some fuel succeeds, with the same result,
    with any fuel above twice the length of the text. *)
Lemma parse_fuel (m : nat) :
  (∀ s res n, parseValue m s = Some res →
     (2 * String.length s + 2 ≤ n)%nat → parseValue n s = Some res)
  ∧ (∀ s res n, parseElements m s = Some res →
       (2 * String.length s + 3 ≤ n)%nat → parseElements n s = Some res)
  ∧ (∀ s res n, parseMembers m s = Some res →
       (2 * String.length s + 3 ≤ n)%nat → parseMembers n s = Some res).
Proof.
  induction m as [|m (IHv & IHe & IHm)]; [repeat split; intros; discriminate|].
  destruct (parse_length m) as (Lv & Le & Lm).
  repeat split.
  - intros s res [|n] H Hn; [lia|]. simpl in H |- *.
    pose proof (skipWs_length s) as Hws.
    destruct (skipWs s) as [|c r0]; [discriminate|]. simpl in Hws.
    pose proof (skipWs_length r0).
    destruct (isChar c "{").
    { split_expect H as r1 E; [exact H|].
      bind_pair H as ms r1 E1. rewrite (IHm _ _ n E1); [exact H|lia]. }
    destruct (isChar c "[").
    { split_expect H as r1 E; [exact H|].
      bind_pair H as vs r1 E1. rewrite (IHe _ _ n E1); [exact H|lia]. }
    exact H.
  - intros s res [|n] H Hn; [lia|]. simpl in H |- *.
    bind_pair H as v r1 E. rewrite (IHv _ _ n E); [simpl|lia].
    apply Lv in E. pose proof (skipWs_length r1).
    split_expect H as r2 E2; [|exact H].
    apply expect_length in E2.
    bind_pair H as vs' r3 E3. rewrite (IHe _ _ n E3); [exact H|lia].
  - intros s res [|n] H Hn; [lia|]. simpl in H |- *.
    pose proof (skipWs_length s).
    bind_one H as r0 E. apply expect_length in E.
    bind_pair H as k r1 E1. apply lexString_length in E1.
    pose proof (skipWs_length r1).
    bind_one H as r2 E2. apply expect_length in E2.
    bind_pair H as v r3 E3. rewrite (IHv _ _ n E3); [simpl|lia]. apply Lv in E3.
    pose proof (skipWs_length r3).
    split_expect H as r4 E4; [|exact H].
    apply expect_length in E4.
    bind_pair H as ms' r5 E5. rewrite (IHm _ _ n E5); [exact H|lia].
Qed.

(** The fuel [JSON_parse] gives is enough: a text that parses with any
    amount of fuel parses with [parseFuel], to the same value. *)
Lemma parseFuel_enough (s : string) (m : nat) (res : JSON * string) :
  parseValue m s = Some res → parseValue (parseFuel s) s = Some res.
Proof.
  intros H. destruct (parse_fuel m) as (Hv & _ & _).
  apply (Hv _ _ _ H). unfold parseFuel. lia.
Qed.

(** A text that [JSON_parse] rejects is rejected whatever the fuel: no
    run of the parser reads it as one value followed by white space
    only. *)
Lemma JSON_parse_reject_any_fuel (s : string) (e : Exn) :
  JSON_parse s = Throw e →
  ∀ m v rest, parseValue m s = Some (v, rest) → skipWs rest ≠ EmptyString.
Proof.
  unfold JSON_parse. intros H m v rest Hm.
  rewrite (parseFuel_enough s m _ Hm) in H.
  destruct (skipWs rest); [discriminate|]. discriminate.
Qed.

End ParserFuel.

(** ** Tag stripping *)

Lemma stripFrom_no_bracket (inTag : bool) (s : string) :
  contains "<" (stripFrom inTag s) = false.
Proof.
  revert inTag. induction s as [|c s IH]; intros inTag; [reflexivity|].
  simpl. destruct inTag.
  - destruct (Ascii.eqb c ">"); apply IH.
  - destruct (Ascii.eqb c "<") eqn:Hc; [apply IH|].
    simpl. by rewrite Hc, IH.
Qed.

Lemma stripTags_plain (s : string) :
  contains "<" s = false → stripTags s = s.
Proof.
  unfold stripTags. induction s as [|c s IH]; [reflexivity|].
  simpl. destruct (Ascii.eqb c "<"); [discriminate|].
  simpl. intros H. by rewrite IH.
Qed.

(** ** History store *)

Lemma insert_unfold (newItem : HistoryItem) (prev : list HistoryItem) :
  insert newItem prev = newItem :: take 49 (filter (keeps (data newItem)) prev).
Proof. reflexivity. Qed.

Lemma insert_length (newItem : HistoryItem) (prev : list HistoryItem) :
  (length (insert newItem prev) ≤ 50)%nat.
Proof.
  unfold insert, historyUpdater. rewrite length_take. lia.
Qed.

Lemma insert_tail_keeps (newItem : HistoryItem) (prev : list HistoryItem) :
  Forall (keeps (data newItem)) (tail (insert newItem prev)).
Proof.
  rewrite insert_unfold. simpl tail.
  apply Forall_take, Forall_forall. intros x Hx.
  apply list_elem_of_filter in Hx. tauto.
Qed.

Lemma filter_keeps_all (d : WordData) (h : list HistoryItem) :
  Forall (keeps d) h → filter (keeps d) h = h.
Proof.
  induction 1 as [|x l Hx _ IH]; [reflexivity|].
  rewrite filter_cons. destruct (decide (keeps d x)); [|contradiction].
  by rewrite IH.
Qed.

Lemma insertAll_snoc (items : list HistoryItem) (it : HistoryItem) (h : list HistoryItem) :
  insertAll (items ++ [it]) h = insert it (insertAll items h).
Proof. unfold insertAll. by rewrite foldl_app. Qed.

Lemma insertAll_length (items h : list HistoryItem) :
  (length h ≤ 50)%nat → (length (insertAll items h) ≤ 50)%nat.
Proof.
  intros Hh. induction items as [|it items IH] using rev_ind; [exact Hh|].
  rewrite insertAll_snoc. apply insert_length.
Qed.

(** C1.  Inserting a word record removes every existing item that has
    the same [coreWord.jp] or the same [coreWord.en] as the new record
    (either field alone is enough), and the new item comes first. *)
Theorem insert_removes_duplicates
    (newItem item : HistoryItem) (prev : list HistoryItem) :
  jp (coreWord (data item)) = jp (coreWord (data newItem))
  ∨ en (coreWord (data item)) = en (coreWord (data newItem)) →
  head (insert newItem prev) = Some newItem
  ∧ item ∉ tail (insert newItem prev).
Proof.
  intros Hdup. split; [reflexivity|].
  intros Hin.
  pose proof (insert_tail_keeps newItem prev) as Hall.
  rewrite Forall_forall in Hall.
  destruct (Hall _ Hin) as [Hjp Hen].
  destruct Hdup; contradiction.
Qed.

Lemma insert_removes_duplicates_witness :
  head (insert newDog [oldCat; oldDog]) = Some newDog
  ∧ oldDog ∉ tail (insert newDog [oldCat; oldDog]).
Proof. apply insert_removes_duplicates. left. reflexivity. Defined.

Lemma take_all_but_last {A} (h : list A) (n : nat) :
  length h = S n → ∃ x, h = take n h ++ [x].
Proof.
  intros Hlen.
  destruct (drop n h) as [|x [|y r]] eqn:Hd.
  - apply (f_equal length) in Hd. rewrite length_drop in Hd. simpl in Hd. lia.
  - exists x. by rewrite <- Hd, take_drop.
  - apply (f_equal length) in Hd. rewrite length_drop in Hd. simpl in Hd. lia.
Qed.

(** C2.  Starting from a history of at most 50 items, the history holds
    at most 50 items after every insert of any sequence of inserts; and
    inserting an item that duplicates none into a history of exactly 50
    drops the last (oldest) item and nothing else. *)
Theorem history_capacity (h items : list HistoryItem) (newItem : HistoryItem) :
  (length h ≤ 50)%nat →
  (∀ k, (length (insertAll (take k items) h) ≤ 50)%nat)
  ∧ (length h = 50%nat → Forall (keeps (data newItem)) h →
     ∃ kept oldest, h = kept ++ [oldest] ∧ insert newItem h = newItem :: kept).
Proof.
  intros Hh. split.
  - intros k. by apply insertAll_length.
  - intros H50 Hnodup.
    destruct (take_all_but_last h 49 H50) as [oldest Hsplit].
    exists (take 49 h), oldest. split; [exact Hsplit|].
    by rewrite insert_unfold, filter_keeps_all.
Qed.

Lemma history_capacity_witness :
  (length fullHistory = 50%nat ∧ Forall (keeps (data (nthItem 50))) fullHistory)
  ∧ (∀ k, (length (insertAll (take k [nthItem 50; nthItem 51]) fullHistory) ≤ 50)%nat)
  ∧ (length fullHistory = 50%nat → Forall (keeps (data (nthItem 50))) fullHistory →
     ∃ kept oldest, fullHistory = kept ++ [oldest]
                    ∧ insert (nthItem 50) fullHistory = nthItem 50 :: kept).
Proof.
  split.
  - split; [reflexivity|]. apply Forall_forall. intros x Hx.
    apply list_elem_of_fmap in Hx as (n & -> & Hn).
    apply elem_of_seq in Hn.
    split; simpl; intros Heq; apply (inj _) in Heq;
      apply (inj pretty) in Heq; lia.
  - apply (history_capacity fullHistory [nthItem 50; nthItem 51] (nthItem 50)).
    vm_compute. lia.
Defined.

(** ** GeminiService *)

Section GeminiFacts.

Import Gemini.

Variable API_KEY : option string.
Variable generateContent : GoogleGenAI → Request → Completion Response.
Variable playAudio : string → Completion unit.

Lemma getClient_trace (st st1 : State) (c : Completion GoogleGenAI) :
  getClient API_KEY st = (c, st1) → trace st1 = trace st.
Proof.
  unfold getClient. intros H.
  destruct (ai (this st)); [by inversion H|].
  destruct API_KEY as [k|]; [|by inversion H].
  destruct (truthy k); by inversion H.
Qed.

Lemma getClient_missing (st : State) :
  truthy_opt API_KEY = false → this st = constructor API_KEY →
  getClient API_KEY st = (Throw (Error missingKeyMessage), st).
Proof.
  unfold getClient, constructor. intros Hkey ->.
  destruct API_KEY as [k|]; simpl in *; [|reflexivity].
  by rewrite Hkey; simpl; rewrite ?Hkey.
Qed.

Lemma constructor_ready (k : string) :
  API_KEY = Some k → truthy k = true →
  getClient API_KEY (fresh API_KEY) = (Return {| apiKey := k |}, fresh API_KEY).
Proof.
  intros Hk Ht. unfold getClient, fresh, constructor.
  by rewrite Hk, Ht.
Qed.

End GeminiFacts.

(** C3 (as the code has it).  Once a client is at hand and the backend
    has answered, [analyzeWord] throws when the answer has no text or an
    empty text, throws the parser's error when the text is not valid
    JSON, and otherwise returns the parsed value as it is: whether the
    required members are there is not looked at. *)
Theorem analyzeWord_outcome
    (API_KEY : option string)
    (generateContent : Gemini.GoogleGenAI → Gemini.Request → Completion Gemini.Response)
    (query : string) (st st1 : Gemini.State) (client : Gemini.GoogleGenAI)
    (response : Gemini.Response) :
  Gemini.getClient API_KEY st = (Return client, st1) →
  generateContent client (Gemini.wordRequest (Gemini.wordPrompt query)) = Return response →
  let result := fst (Gemini.analyzeWord API_KEY generateContent query st) in
  (truthy_opt (Gemini.text response) = false →
     result = Throw (Error "No text response from Gemini"))
  ∧ (∀ t e, Gemini.text response = Some t → truthy t = true →
       JSON_parse t = Throw e → result = Throw e)
  ∧ (∀ t v, Gemini.text response = Some t → truthy t = true →
       JSON_parse t = Return v → result = Return v)
  ∧ (∀ v, result = Return v →
       ∃ t, Gemini.text response = Some t ∧ JSON_parse t = Return v).
Proof.
  intros Hc Hr result. subst result.
  unfold Gemini.analyzeWord, Gemini.call, Gemini.emit, mbind, Eff_bind, modify, liftC, throw.
  rewrite Hc. simpl. rewrite Hr.
  destruct (Gemini.text response) as [t|] eqn:Ht; simpl.
  - destruct (truthy t) eqn:Htr; simpl.
    + repeat split.
      * discriminate.
      * intros t' e [= <-] _ ->. reflexivity.
      * intros t' v [= <-] _ ->. reflexivity.
      * intros v Hv. exists t. split; [reflexivity|exact Hv].
    + repeat split.
      * intros t' e [= <-]. congruence.
      * intros t' v [= <-]. congruence.
      * discriminate.
  - repeat split; try discriminate.
Qed.

Lemma analyzeWord_outcome_witness :
  let response := {| Gemini.text := Some partialText; Gemini.candidates := None |} in
  let result := fst (Gemini.analyzeWord (Some "key") partialBackend "犬"
                       (Gemini.fresh (Some "key"))) in
  (truthy_opt (Gemini.text response) = false →
     result = Throw (Error "No text response from Gemini"))
  ∧ (∀ t e, Gemini.text response = Some t → truthy t = true →
       JSON_parse t = Throw e → result = Throw e)
  ∧ (∀ t v, Gemini.text response = Some t → truthy t = true →
       JSON_parse t = Return v → result = Return v)
  ∧ (∀ v, result = Return v →
       ∃ t, Gemini.text response = Some t ∧ JSON_parse t = Return v).
Proof.
  apply (analyzeWord_outcome (Some "key") partialBackend "犬"
           (Gemini.fresh (Some "key")) (Gemini.fresh (Some "key"))
           {| Gemini.apiKey := "key" |}); reflexivity.
Defined.

(** C3 fails as stated: a backend answer that is valid JSON but holds
    only [coreWord] is returned to the caller, five required members
    short. *)
Lemma analyzeWord_returns_partial_payload :
  fst (Gemini.analyzeWord (Some "key") partialBackend "犬" (Gemini.fresh (Some "key")))
    = Return partialPayload
  ∧ missingRequired partialPayload
  ∧ conforms wordSchema partialPayload = false.
Proof.
  split; [vm_compute; reflexivity|]. split; [|vm_compute; reflexivity].
  exists "pronunciation". split; [|reflexivity].
  apply list_elem_of_further, list_elem_of_here.
Qed.

(** C4 fails as stated: the reading inside the annotation is text, not
    a tag, and stays. *)
Lemma stripTags_keeps_reading :
  stripTags rubySample = "日本にほんは" ∧ stripTags rubySample ≠ "日本は".
Proof. split; [vm_compute; reflexivity|vm_compute; discriminate]. Qed.

Lemma generateSpeech_sends
    (API_KEY : option string)
    (generateContent : Gemini.GoogleGenAI → Gemini.Request → Completion Gemini.Response)
    (playAudio : string → Completion unit)
    (txt : string) (lang : Gemini.Lang)
    (st st1 : Gemini.State) (client : Gemini.GoogleGenAI) :
  Gemini.getClient API_KEY st = (Return client, st1) →
  ∃ later,
    Gemini.trace (snd (Gemini.generateSpeech API_KEY generateContent playAudio txt lang st))
    = Gemini.trace st
      ++ Gemini.Sent (Gemini.speechRequest (stripTags txt) (Gemini.voiceFor lang)) :: later.
Proof.
  intros Hc. pose proof (getClient_trace _ _ _ _ Hc) as Htr.
  unfold Gemini.generateSpeech, tryCatch, Gemini.call, Gemini.emit,
    mbind, Eff_bind, modify, liftC, mret, Eff_ret.
  rewrite Hc. simpl.
  destruct (generateContent client _) as [response|e]; simpl.
  - destruct (truthy_opt _); simpl.
    + destruct (playAudio _); simpl; rewrite Htr.
      * eexists. rewrite <- app_assoc. reflexivity.
      * eexists. rewrite <- app_assoc. reflexivity.
    + rewrite Htr. by eexists.
  - rewrite Htr. eexists. rewrite <- app_assoc. reflexivity.
Qed.

(** C4 (as the code has it).  [generateSpeech] cleans the text before
    anything else; for the definition string with the ruby annotation
    the request that goes out carries the base text followed by the
    reading: every tag is gone, the text between the tags is kept in
    order. *)
Theorem generateSpeech_cleans_ruby
    (API_KEY : option string)
    (generateContent : Gemini.GoogleGenAI → Gemini.Request → Completion Gemini.Response)
    (playAudio : string → Completion unit) (lang : Gemini.Lang)
    (st st1 : Gemini.State) (client : Gemini.GoogleGenAI) :
  Gemini.getClient API_KEY st = (Return client, st1) →
  stripTags rubySample = "日本にほんは"
  ∧ ∃ later,
      Gemini.trace (snd (Gemini.generateSpeech API_KEY generateContent playAudio
                           rubySample lang st))
      = Gemini.trace st
        ++ Gemini.Sent (Gemini.speechRequest "日本にほんは" (Gemini.voiceFor lang)) :: later.
Proof.
  intros Hc. split; [vm_compute; reflexivity|].
  destruct (generateSpeech_sends API_KEY generateContent playAudio rubySample lang
              st st1 client Hc) as [later Hl].
  exists later. rewrite Hl. do 3 f_equal.
Qed.

Lemma generateSpeech_cleans_ruby_witness :
  stripTags rubySample = "日本にほんは"
  ∧ ∃ later,
      Gemini.trace (snd (Gemini.generateSpeech (Some "key") failingBackend silentAudio
                           rubySample Gemini.JP (Gemini.fresh (Some "key"))))
      = Gemini.trace (Gemini.fresh (Some "key"))
        ++ Gemini.Sent (Gemini.speechRequest "日本にほんは" (Gemini.voiceFor Gemini.JP)) :: later.
Proof.
  apply (generateSpeech_cleans_ruby (Some "key") failingBackend silentAudio Gemini.JP
           (Gemini.fresh (Some "key")) (Gemini.fresh (Some "key"))
           {| Gemini.apiKey := "key" |}).
  reflexivity.
Defined.

(** C6 fails as stated: without a credential [generateImage] returns
    [null] and [generateSpeech] returns normally; neither lets the
    configuration error reach its caller. *)
Lemma media_calls_swallow_missing_credential :
  fst (Gemini.generateImage None failingBackend "dog" (Gemini.fresh None)) = Return None
  ∧ fst (Gemini.generateSpeech None failingBackend silentAudio "dog" Gemini.EN
           (Gemini.fresh None)) = Return tt.
Proof. split; reflexivity. Qed.

(** C6 (as the code has it).  With no credential in the environment, at
    construction and at the call, no method sends anything to the
    backend.  [analyzeWord] and [analyzeSentence] throw the
    configuration error to their caller.  [generateImage] and
    [generateSpeech] catch it, log it on the console and return
    normally, [generateImage] with [null]. *)
Theorem missing_credential
    (API_KEY : option string)
    (generateContent : Gemini.GoogleGenAI → Gemini.Request → Completion Gemini.Response)
    (playAudio : string → Completion unit)
    (input : string) (lang : Gemini.Lang) (st : Gemini.State) :
  truthy_opt API_KEY = false →
  Gemini.this st = Gemini.constructor API_KEY →
  Gemini.analyzeWord API_KEY generateContent input st
    = (Throw (Error Gemini.missingKeyMessage), st)
  ∧ Gemini.analyzeSentence API_KEY generateContent input st
    = (Throw (Error Gemini.missingKeyMessage), st)
  ∧ Gemini.generateImage API_KEY generateContent input st
    = (Return None,
       Gemini.logged st (Gemini.ConsoleError "Image generation failed"
                    (Error Gemini.missingKeyMessage)))
  ∧ Gemini.generateSpeech API_KEY generateContent playAudio input lang st
    = (Return tt,
       Gemini.logged st (Gemini.ConsoleError "TTS failed" (Error Gemini.missingKeyMessage))).
Proof.
  intros Hkey Hthis.
  pose proof (getClient_missing API_KEY st Hkey Hthis) as Hc.
  unfold Gemini.analyzeWord, Gemini.analyzeSentence, Gemini.generateImage,
    Gemini.generateSpeech, tryCatch, mbind, Eff_bind.
  rewrite Hc. repeat split.
Qed.

Lemma missing_credential_witness :
  let st := Gemini.fresh (Some "") in
  Gemini.analyzeWord (Some "") failingBackend "犬" st
    = (Throw (Error Gemini.missingKeyMessage), st)
  ∧ Gemini.analyzeSentence (Some "") failingBackend "犬" st
    = (Throw (Error Gemini.missingKeyMessage), st)
  ∧ Gemini.generateImage (Some "") failingBackend "犬" st
    = (Return None,
       Gemini.logged st (Gemini.ConsoleError "Image generation failed"
                    (Error Gemini.missingKeyMessage)))
  ∧ Gemini.generateSpeech (Some "") failingBackend silentAudio "犬" Gemini.ZH st
    = (Return tt,
       Gemini.logged st (Gemini.ConsoleError "TTS failed" (Error Gemini.missingKeyMessage))).
Proof.
  apply (missing_credential (Some "") failingBackend silentAudio "犬" Gemini.ZH
           (Gemini.fresh (Some ""))); reflexivity.
Defined.

(** ** CSV export *)

Lemma unquoteBody_doubled (s : string) :
  unquoteBody (doubleQuotes s +:+ dq) = Some s.
Proof.
  induction s as [|c s IH]; [reflexivity|].
  simpl. destruct (Ascii.eqb c DQUOTE) eqn:Hc.
  - apply Ascii.eqb_eq in Hc. subst c. simpl. by rewrite IH.
  - simpl. rewrite Hc. by rewrite IH.
Qed.

Lemma csvUnescape_quoted (s : string) : csvUnescape (quoted s) = Some s.
Proof. unfold quoted. simpl. apply unquoteBody_doubled. Qed.

Lemma row_cells (h : HistoryItem) :
  (Z.abs (timestamp h) ≤ maxTimeValue)%Z →
  ∃ iso, toISOString (timestamp h) = Return iso ∧
    row h = Return [ iso; inputWord (data h);
                     jp (coreWord (data h)); en (coreWord (data h));
                     zh (coreWord (data h));
                     jp (pronunciation (data h)); en (pronunciation (data h));
                     quoted (Definitions.jp (definitions (data h)));
                     quoted (Definitions.en (definitions (data h))) ].
Proof.
  intros Ht. unfold row, toISOString.
  destruct (Z.leb_spec (Z.abs (timestamp h)) maxTimeValue) as [_|Hgt]; [|lia].
  destruct (civilFromDays _) as [[y m] d]. eexists. split; reflexivity.
Qed.

(** C5, at the failing input.  For a stored record whose input is
    [a,b] the export writes the Input column as it is: the cell needs
    quoting and is not quoted, so the line has ten comma-separated
    pieces under a nine-column header. *)
Lemma export_leaves_input_unquoted :
  needsQuoting (inputWord (data commaItem)) = true
  ∧ row commaItem
    = Return [ "1970-01-01T00:00:00.005Z"; "a,b"; "犬"; "dog"; "字"; "よみ"; "ri:d";
               quoted "定義"; quoted "d" ]
  ∧ csvContent [commaItem]
    = Return (join (String LF EmptyString)
                [ "Timestamp,Input,JP,EN,ZH,JP_Pron,EN_Pron,Definition_JP,Definition_EN";
                  "1970-01-01T00:00:00.005Z,a,b,犬,dog,字,よみ,ri:d,"
                  +:+ quoted "定義" +:+ "," +:+ quoted "d" ])
  ∧ csvSplit ("1970-01-01T00:00:00.005Z,a,b,犬,dog,字,よみ,ri:d,"
              +:+ quoted "定義" +:+ "," +:+ quoted "d")
    = [ "1970-01-01T00:00:00.005Z"; "a"; "b"; "犬"; "dog"; "字"; "よみ"; "ri:d";
        "定義"; "d" ].
Proof. repeat split. Qed.

(** C7.  For a stored record whose English definition holds a double
    quote and a comma, the last cell of the exported row is the
    definition between double quotes with every inner double quote
    doubled, and reading that cell back (outer quotes stripped, doubled
    quotes collapsed) gives the definition again. *)
Theorem export_definition_round_trip (h : HistoryItem) :
  (Z.abs (timestamp h) ≤ maxTimeValue)%Z →
  contains DQUOTE (Definitions.en (definitions (data h))) = true →
  contains "," (Definitions.en (definitions (data h))) = true →
  ∃ cells field,
    row h = Return cells
    ∧ cells !! 8%nat = Some field
    ∧ length cells = 9%nat
    ∧ field = dq +:+ doubleQuotes (Definitions.en (definitions (data h))) +:+ dq
    ∧ csvUnescape field = Some (Definitions.en (definitions (data h))).
Proof.
  intros Ht _ _. destruct (row_cells h Ht) as (iso & _ & Hrow).
  eexists _, _. split; [exact Hrow|].
  repeat split. apply csvUnescape_quoted.
Qed.

Lemma export_definition_round_trip_witness :
  ∃ cells field,
    row quoteItem = Return cells
    ∧ cells !! 8%nat = Some field
    ∧ length cells = 9%nat
    ∧ field = dq +:+ doubleQuotes quotedDefinition +:+ dq
    ∧ csvUnescape field = Some quotedDefinition.
Proof.
  apply (export_definition_round_trip quoteItem); vm_compute; congruence.
Defined.

(** Read back as a whole line, the row of that record gives its nine
    fields, the definition among them as it was stored. *)
Example export_line_reads_back :
  (cells ← row quoteItem; mret (csvSplit (join "," cells)))
  = Return [ "2023-11-14T22:13:20.000Z"; "dog"; "犬"; "dog"; "字"; "よみ"; "ri:d";
             "定義"; quotedDefinition ].
Proof. vm_compute. reflexivity. Qed.

(** ** The App component *)

Section AppFacts.

Import App.

Variable analyzeWord : string → Completion WordData.
Variable generateImage : string → Completion (option string).

Lemma handleSearch_blank (nowId nowTs : Z) (w : World) :
  truthy (trim (query (state w))) = false →
  handleSearch analyzeWord generateImage nowId nowTs w = (Return tt, w).
Proof.
  intros Hq. unfold handleSearch, mbind, Eff_bind, gets. by rewrite Hq.
Qed.

Lemma handleSearch_analysis_throws (nowId nowTs : Z) (w : World) (e : Exn) :
  truthy (trim (query (state w))) = true →
  analyzeWord (query (state w)) = Throw e →
  handleSearch analyzeWord generateImage nowId nowTs w
  = (Return tt,
     {| state := {| query := query (state w); currentData := None;
                    currentImage := None; loadingState := ERROR;
                    error := Some analysisFailedMessage;
                    history := history (state w);
                    isSidebarOpen := isSidebarOpen (state w) |};
        console := console w ++ [("", e)];
        transitions := (transitions w ++ [ANALYZING]) ++ [ERROR];
        persisted := persisted w |}).
Proof.
  intros Hq Ha. unfold handleSearch, mbind, Eff_bind, gets. rewrite Hq. simpl.
  unfold tryCatch, liftC. simpl. rewrite Ha. reflexivity.
Qed.

(** A submission whose two backend calls return ends in Complete with
    one insert into the history, written through to storage. *)
Lemma handleSearch_success (nowId nowTs : Z) (w : World) (d : WordData)
    (image : option string) :
  truthy (trim (query (state w))) = true →
  analyzeWord (query (state w)) = Return d →
  generateImage (en (coreWord d)) = Return image →
  let shown := if truthy_opt image then image else None in
  let newItem := {| id := pretty nowId; timestamp := nowTs; word := jp (coreWord d);
                    data := d; imageUrl := shown |} in
  handleSearch analyzeWord generateImage nowId nowTs w
  = (Return tt,
     {| state := {| query := query (state w); currentData := Some d;
                    currentImage := shown; loadingState := COMPLETE;
                    error := None;
                    history := insert newItem (history (state w));
                    isSidebarOpen := isSidebarOpen (state w) |};
        console := console w;
        transitions := ((transitions w ++ [ANALYZING]) ++ [GENERATING_IMAGE]) ++ [COMPLETE];
        persisted := persisted w ++ [insert newItem (history (state w))] |}).
Proof.
  intros Hq Ha Hi shown newItem. subst newItem shown.
  unfold handleSearch, mbind, Eff_bind, gets. rewrite Hq. simpl.
  unfold tryCatch, liftC. simpl. rewrite Ha. simpl. rewrite Hi. simpl.
  destruct (truthy_opt image); reflexivity.
Qed.

Lemma handleSearch_no_image (nowId nowTs : Z) (w : World) (d : WordData) :
  truthy (trim (query (state w))) = true →
  analyzeWord (query (state w)) = Return d →
  generateImage (en (coreWord d)) = Return None →
  let newItem := {| id := pretty nowId; timestamp := nowTs; word := jp (coreWord d);
                    data := d; imageUrl := None |} in
  handleSearch analyzeWord generateImage nowId nowTs w
  = (Return tt,
     {| state := {| query := query (state w); currentData := Some d;
                    currentImage := None; loadingState := COMPLETE;
                    error := None;
                    history := insert newItem (history (state w));
                    isSidebarOpen := isSidebarOpen (state w) |};
        console := console w;
        transitions := ((transitions w ++ [ANALYZING]) ++ [GENERATING_IMAGE]) ++ [COMPLETE];
        persisted := persisted w ++ [insert newItem (history (state w))] |}).
Proof.
  intros Hq Ha Hi newItem.
  exact (handleSearch_success nowId nowTs w d None Hq Ha Hi).
Qed.

(** Only a submission whose analysis returned can change the history or
    write to storage. *)
Lemma handleSearch_changes_only_on_success (nowId nowTs : Z) (w : World) :
  let w' := snd (handleSearch analyzeWord generateImage nowId nowTs w) in
  history (state w') ≠ history (state w) ∨ persisted w' ≠ persisted w →
  ∃ d, analyzeWord (query (state w)) = Return d.
Proof.
  intros w' Hch. subst w'.
  destruct (truthy (trim (query (state w)))) eqn:Hq.
  - destruct (analyzeWord (query (state w))) as [d|e] eqn:Ha; [by exists d|].
    rewrite (handleSearch_analysis_throws _ _ _ e Hq Ha) in Hch. simpl in Hch.
    destruct Hch; congruence.
  - rewrite (handleSearch_blank _ _ _ Hq) in Hch. simpl in Hch.
    destruct Hch; congruence.
Qed.

End AppFacts.


Lemma generateImage_backend_error
    (API_KEY : option string)
    (generateContent : Gemini.GoogleGenAI → Gemini.Request → Completion Gemini.Response)
    (word : string) (st : Gemini.State) :
  (∀ client, ∃ e, generateContent client (Gemini.imageRequest word) = Throw e) →
  fst (Gemini.generateImage API_KEY generateContent word st) = Return None.
Proof.
  intros Hfail.
  unfold Gemini.generateImage, tryCatch, Gemini.call, mbind, Eff_bind, liftC.
  destruct (Gemini.getClient API_KEY st) as [[client|e] st1]; simpl; [|reflexivity].
  destruct (Hfail client) as [e ->]. reflexivity.
Qed.

(** C8.  A stored blob that is not valid JSON makes the load effect
    return normally with the history cell untouched, so the component
    mounts with the empty history, which the save effect then writes
    over the blob. *)
Theorem corrupt_blob_loads_empty
    (asHistory : JSON → list HistoryItem) (blob : string) (e : Exn) :
  JSON_parse blob = Throw e →
  (∀ w, fst (App.loadHistory asHistory (Some blob) w) = Return tt
        ∧ App.state (snd (App.loadHistory asHistory (Some blob) w)) = App.state w)
  ∧ fst (App.mount asHistory (Some blob) App.initialWorld) = Return tt
  ∧ App.history (App.state (snd (App.mount asHistory (Some blob) App.initialWorld))) = []
  ∧ App.persisted (snd (App.mount asHistory (Some blob) App.initialWorld)) = [[]].
Proof.
  intros Hparse.
  assert (Hload : ∀ w, App.loadHistory asHistory (Some blob) w = (Return tt, w)
                       ∨ App.loadHistory asHistory (Some blob) w
                         = (Return tt,
                            {| App.state := App.state w;
                               App.console := App.console w ++ [("Failed to parse history", e)];
                               App.transitions := App.transitions w;
                               App.persisted := App.persisted w |})).
  { intros w. unfold App.loadHistory. destruct (truthy blob); [right|by left].
    unfold tryCatch, mbind, Eff_bind, liftC. by rewrite Hparse. }
  split.
  - intros w. by destruct (Hload w) as [-> | ->].
  - set (w1 := {| App.state := App.initialState; App.console := [];
                  App.transitions := []; App.persisted := [[]] |}).
    assert (Hm : App.mount asHistory (Some blob) App.initialWorld
                 = App.loadHistory asHistory (Some blob) w1) by reflexivity.
    rewrite Hm. by destruct (Hload w1) as [-> | ->].
Qed.

Lemma corrupt_blob_loads_empty_witness :
  (∀ w, fst (App.loadHistory noHistory (Some "{oops") w) = Return tt
        ∧ App.state (snd (App.loadHistory noHistory (Some "{oops") w)) = App.state w)
  ∧ fst (App.mount noHistory (Some "{oops") App.initialWorld) = Return tt
  ∧ App.history (App.state (snd (App.mount noHistory (Some "{oops") App.initialWorld))) = []
  ∧ App.persisted (snd (App.mount noHistory (Some "{oops") App.initialWorld)) = [[]].
Proof.
  apply (corrupt_blob_loads_empty noHistory "{oops"
           (SyntaxError "Unexpected token in JSON")).
  reflexivity.
Defined.

(** C9.  When the analysis of a submission returns a record and the
    backend fails the image request, whatever the error, the session
    goes through Analyzing and GeneratingImage to Complete and never to
    Error; the record is displayed without an image and the item put at
    the head of the history has no image. *)
Theorem image_failure_still_completes
    (API_KEY : option string)
    (generateContent : Gemini.GoogleGenAI → Gemini.Request → Completion Gemini.Response)
    (service : Gemini.State)
    (analyzeWord : string → Completion WordData)
    (nowId nowTs : Z) (w : App.World) (d : WordData) :
  truthy (trim (App.query (App.state w))) = true →
  analyzeWord (App.query (App.state w)) = Return d →
  (∀ client, ∃ e,
     generateContent client (Gemini.imageRequest (en (coreWord d))) = Throw e) →
  let generateImage word :=
    fst (Gemini.generateImage API_KEY generateContent word service) in
  let w' := snd (App.handleSearch analyzeWord generateImage nowId nowTs w) in
  fst (App.handleSearch analyzeWord generateImage nowId nowTs w) = Return tt
  ∧ App.loadingState (App.state w') = COMPLETE
  ∧ App.transitions w' = App.transitions w ++ [ANALYZING; GENERATING_IMAGE; COMPLETE]
  ∧ App.error (App.state w') = None
  ∧ App.currentData (App.state w') = Some d
  ∧ App.currentImage (App.state w') = None
  ∧ ∃ newItem,
      data newItem = d ∧ imageUrl newItem = None
      ∧ App.history (App.state w') = insert newItem (App.history (App.state w))
      ∧ head (App.history (App.state w')) = Some newItem.
Proof.
  intros Hq Ha Hfail generateImage w'. subst w'.
  assert (Hi : generateImage (en (coreWord d)) = Return None)
    by (by apply generateImage_backend_error).
  rewrite (handleSearch_no_image analyzeWord generateImage nowId nowTs w d Hq Ha Hi).
  simpl. rewrite <- !app_assoc. simpl.
  repeat split.
  eexists {| id := _; timestamp := _; word := _; data := d; imageUrl := None |}.
  repeat split.
Qed.

Lemma image_failure_still_completes_witness :
  let d := data newDog in
  let w := searching "dog" in
  let generateImage word :=
    fst (Gemini.generateImage (Some "key") failingBackend word (Gemini.fresh (Some "key"))) in
  let w' := snd (App.handleSearch (answers d) generateImage 3 3 w) in
  fst (App.handleSearch (answers d) generateImage 3 3 w) = Return tt
  ∧ App.loadingState (App.state w') = COMPLETE
  ∧ App.transitions w' = App.transitions w ++ [ANALYZING; GENERATING_IMAGE; COMPLETE]
  ∧ App.error (App.state w') = None
  ∧ App.currentData (App.state w') = Some d
  ∧ App.currentImage (App.state w') = None
  ∧ ∃ newItem,
      data newItem = d ∧ imageUrl newItem = None
      ∧ App.history (App.state w') = insert newItem (App.history (App.state w))
      ∧ head (App.history (App.state w')) = Some newItem.
Proof.
  apply (image_failure_still_completes (Some "key") failingBackend
           (Gemini.fresh (Some "key")) (answers (data newDog)) 3 3
           (searching "dog") (data newDog)).
  - reflexivity.
  - reflexivity.
  - intros client. eexists. reflexivity.
Defined.

(** C10.  A submission whose analysis throws leaves the history as it
    was, item for item, and writes nothing to storage. *)
Theorem failed_analysis_keeps_history
    (analyzeWord : string → Completion WordData)
    (generateImage : string → Completion (option string))
    (nowId nowTs : Z) (w : App.World) (e : Exn) :
  analyzeWord (App.query (App.state w)) = Throw e →
  let w' := snd (App.handleSearch analyzeWord generateImage nowId nowTs w) in
  App.history (App.state w') = App.history (App.state w)
  ∧ App.persisted w' = App.persisted w.
Proof.
  intros Ha w'. subst w'.
  destruct (truthy (trim (App.query (App.state w)))) eqn:Hq.
  - by rewrite (handleSearch_analysis_throws analyzeWord generateImage _ _ _ e Hq Ha).
  - by rewrite (handleSearch_blank analyzeWord generateImage _ _ _ Hq).
Qed.

Lemma failed_analysis_keeps_history_witness :
  let w' := snd (App.handleSearch refuses noImage 3 3 (searching "dog")) in
  App.history (App.state w') = App.history (App.state (searching "dog"))
  ∧ App.persisted w' = App.persisted (searching "dog").
Proof.
  apply (failed_analysis_keeps_history refuses noImage 3 3 (searching "dog")
           (Error "No text response from Gemini")).
  reflexivity.
Defined.

(** * Further properties *)

(** ** The history update *)

Lemma insert_tail_sublist (newItem : HistoryItem) (prev : list HistoryItem) :
  tail (insert newItem prev) `sublist_of` prev.
Proof.
  rewrite insert_unfold. simpl.
  etrans; [apply sublist_take|apply sublist_filter].
Qed.

Lemma sublist_fmap_keep {A B} (f : A → B) (l1 l2 : list A) :
  l1 `sublist_of` l2 → (f <$> l1) `sublist_of` (f <$> l2).
Proof.
  induction 1; simpl; [constructor|by apply sublist_skip|by apply sublist_cons].
Qed.

Lemma insert_tail_jp (newItem : HistoryItem) (prev : list HistoryItem) :
  jpKey newItem ∉ jpKey <$> tail (insert newItem prev).
Proof.
  intros (x & Hx & Hin)%list_elem_of_fmap.
  pose proof (insert_tail_keeps newItem prev) as Hall.
  rewrite Forall_forall in Hall. destruct (Hall _ Hin) as [Hjp _].
  by apply Hjp.
Qed.

Lemma insert_tail_en (newItem : HistoryItem) (prev : list HistoryItem) :
  enKey newItem ∉ enKey <$> tail (insert newItem prev).
Proof.
  intros (x & Hx & Hin)%list_elem_of_fmap.
  pose proof (insert_tail_keeps newItem prev) as Hall.
  rewrite Forall_forall in Hall. destruct (Hall _ Hin) as [_ Hen].
  by apply Hen.
Qed.

Lemma insert_distinctKeys (newItem : HistoryItem) (prev : list HistoryItem) :
  distinctKeys prev → distinctKeys (insert newItem prev).
Proof.
  intros [Hjp Hen].
  pose proof (insert_tail_sublist newItem prev) as Hsub.
  pose proof (insert_tail_jp newItem prev) as Hj.
  pose proof (insert_tail_en newItem prev) as He.
  rewrite insert_unfold in *. simpl in *.
  split; simpl; apply NoDup_cons; split; try done.
  - eapply sublist_NoDup; [exact Hjp|by apply sublist_fmap_keep].
  - eapply sublist_NoDup; [exact Hen|by apply sublist_fmap_keep].
Qed.

Lemma sublist_StronglySorted {A} (R : A → A → Prop) (l1 l2 : list A) :
  l1 `sublist_of` l2 → StronglySorted R l2 → StronglySorted R l1.
Proof.
  induction 1 as [|x l1 l2 Hsub IH|x l1 l2 Hsub IH]; intros Hs.
  - constructor.
  - inversion Hs as [|? ? Hs' Hall]; subst. constructor; [by apply IH|].
    rewrite Forall_forall in *. intros z Hz. apply Hall.
    by eapply elem_of_sublist.
  - inversion Hs; subst. by apply IH.
Qed.

Lemma insert_sorted (newItem : HistoryItem) (prev : list HistoryItem) :
  StronglySorted newer prev →
  Forall (newer newItem) prev →
  StronglySorted newer (insert newItem prev).
Proof.
  intros Hs Hall.
  pose proof (insert_tail_sublist newItem prev) as Hsub.
  rewrite insert_unfold in *. simpl in Hsub.
  constructor.
  - by eapply sublist_StronglySorted.
  - rewrite Forall_forall in *. intros z Hz. apply Hall.
    by eapply elem_of_sublist.
Qed.

Lemma insertAll_cons (it : HistoryItem) (items h : list HistoryItem) :
  insertAll (it :: items) h = insertAll items (insert it h).
Proof. reflexivity. Qed.

Lemma filter_take_prefix {A} (P : A → Prop) `{!∀ x, Decision (P x)}
    (l : list A) (n : nat) :
  filter P (take n l) `prefix_of` filter P l.
Proof.
  rewrite <- (take_drop n l) at 2. rewrite filter_app. by eexists.
Qed.

Lemma insert_keeps_recent (newItem x : HistoryItem) (h : list HistoryItem) (i : nat) :
  h !! i = Some x → (i < 49)%nat → keeps (data newItem) x →
  ∃ j, (j ≤ i)%nat ∧ tail (insert newItem h) !! j = Some x.
Proof.
  intros Hi Hlt Hk. rewrite insert_unfold. simpl.
  assert (Hin : x ∈ filter (keeps (data newItem)) (take (S i) h)).
  { apply list_elem_of_filter. split; [done|].
    apply elem_of_take. exists i. split; [done|lia]. }
  apply list_elem_of_lookup in Hin as [j Hj].
  assert (Hjlt : (j < S i)%nat).
  { apply lookup_lt_Some in Hj.
    pose proof (length_filter (keeps (data newItem)) (take (S i) h)) as Hlen.
    rewrite length_take in Hlen. lia. }
  exists j. split; [lia|].
  rewrite lookup_take_lt by lia.
  destruct (filter_take_prefix (keeps (data newItem)) h (S i)) as [k ->].
  by apply lookup_app_l_Some.
Qed.

Lemma insert_duplicate_length (newItem item : HistoryItem) (h : list HistoryItem) :
  item ∈ h → ¬ keeps (data newItem) item →
  (length (insert newItem h) ≤ length h)%nat.
Proof.
  intros Hin Hdup. rewrite insert_unfold. simpl. rewrite length_take.
  pose proof (length_filter_lt (keeps (data newItem)) h item Hin Hdup). lia.
Qed.

(** X1.  Inserting a record again, under a new id and time, replaces the
    item at the head: the history is the one a single insert of the
    later item gives. *)
Theorem reinsert_replaces_head (x y : HistoryItem) (h : list HistoryItem) :
  data y = data x → insert y (insert x h) = insert y h.
Proof.
  intros Hd. rewrite !insert_unfold, Hd. f_equal.
  rewrite filter_cons.
  destruct (decide (keeps (data x) x)) as [[Hjp _]|_]; [done|].
  rewrite filter_keeps_all.
  - rewrite take_take. f_equal.
  - apply Forall_take, Forall_forall. intros z Hz.
    apply list_elem_of_filter in Hz. tauto.
Qed.

Lemma reinsert_replaces_head_witness :
  insert againDog (insert newDog [oldCat; oldDog]) = insert againDog [oldCat; oldDog].
Proof. apply reinsert_replaces_head. reflexivity. Defined.

(** X2.  A history whose items differ pairwise in [coreWord.jp] and
    pairwise in [coreWord.en] stays so under any sequence of inserts;
    the empty history is one. *)
Theorem history_keys_stay_distinct (h items : list HistoryItem) :
  distinctKeys h → distinctKeys (insertAll items h).
Proof.
  intros Hh. induction items as [|it items IH] using rev_ind; [exact Hh|].
  rewrite insertAll_snoc. by apply insert_distinctKeys.
Qed.

Lemma history_keys_stay_distinct_witness :
  distinctKeys (insertAll [oldDog; oldCat; newDog; againDog] []).
Proof.
  apply history_keys_stay_distinct. split; simpl; apply NoDup_nil; exact I.
Defined.

(** X3.  An insert puts the new item first and keeps, in their order,
    items of the old history only: at most 49 of them, none sharing a
    key with the new item. *)
Theorem insert_never_reorders (newItem : HistoryItem) (prev : list HistoryItem) :
  ∃ rest,
    insert newItem prev = newItem :: rest
    ∧ rest `sublist_of` prev
    ∧ Forall (keeps (data newItem)) rest
    ∧ (length rest ≤ 49)%nat.
Proof.
  exists (tail (insert newItem prev)). split; [reflexivity|].
  split; [apply insert_tail_sublist|]. split; [apply insert_tail_keeps|].
  rewrite insert_unfold. simpl. rewrite length_take. lia.
Qed.

(** X4.  A history kept newest first stays newest first when every
    insert carries a later timestamp than all before it. *)
Theorem history_newest_first (h items : list HistoryItem) (t : Z) :
  StronglySorted newer h →
  Forall (fun x => (timestamp x ≤ t)%Z) h →
  increasing t items →
  StronglySorted newer (insertAll items h).
Proof.
  revert h t.
  induction items as [|it items IH]; intros h t Hs Hb Hinc; [exact Hs|].
  destruct Hinc as [Hlt Hinc]. rewrite insertAll_cons.
  apply (IH _ (timestamp it)); [| |exact Hinc].
  - apply insert_sorted; [exact Hs|].
    eapply Forall_impl; [exact Hb|]. unfold newer. simpl. intros; lia.
  - rewrite insert_unfold. constructor; [lia|].
    apply Forall_take. apply Forall_forall. intros z Hz.
    apply list_elem_of_filter in Hz as [_ Hz].
    rewrite Forall_forall in Hb. specialize (Hb _ Hz). simpl in Hb. lia.
Qed.

Lemma history_newest_first_witness :
  StronglySorted newer (insertAll [oldDog; oldCat; newDog; againDog] []).
Proof.
  apply (history_newest_first [] [oldDog; oldCat; newDog; againDog] 0).
  - constructor.
  - constructor.
  - simpl. lia.
Defined.

(** X5.  Looking up a word that the history already holds, under either
    key, does not make the history longer. *)
Theorem duplicate_insert_does_not_grow
    (newItem item : HistoryItem) (h : list HistoryItem) :
  item ∈ h →
  jp (coreWord (data item)) = jp (coreWord (data newItem))
  ∨ en (coreWord (data item)) = en (coreWord (data newItem)) →
  (length (insert newItem h) ≤ length h)%nat.
Proof.
  intros Hin Hdup. apply (insert_duplicate_length newItem item h Hin).
  intros [Hjp Hen]. destruct Hdup; contradiction.
Qed.

Lemma duplicate_insert_does_not_grow_witness :
  (length (insert newDog [oldCat; oldDog]) ≤ length [oldCat; oldDog])%nat.
Proof.
  apply (duplicate_insert_does_not_grow newDog oldDog).
  - apply list_elem_of_further, list_elem_of_here.
  - left. reflexivity.
Defined.

(** X6.  An item among the 49 most recent that shares no key with the
    new item is still in the history after the insert, no further from
    the head than one place down. *)
Theorem recent_items_survive
    (newItem x : HistoryItem) (h : list HistoryItem) (i : nat) :
  h !! i = Some x → (i < 49)%nat → keeps (data newItem) x →
  ∃ j, (j ≤ S i)%nat ∧ insert newItem h !! j = Some x.
Proof.
  intros Hi Hlt Hk.
  destruct (insert_keeps_recent newItem x h i Hi Hlt Hk) as (j & Hj & Hx).
  exists (S j). split; [lia|]. rewrite insert_unfold in *. exact Hx.
Qed.

Lemma recent_items_survive_witness :
  ∃ j, (j ≤ 1)%nat ∧ insert newDog [oldCat; oldDog] !! j = Some oldCat.
Proof.
  apply (recent_items_survive newDog oldCat [oldCat; oldDog] 0).
  - reflexivity.
  - lia.
  - split; vm_compute; discriminate.
Defined.

(** ** The CSV export *)

Lemma append_cons (c : ascii) (s t : string) :
  String c s +:+ t = String c (s +:+ t).
Proof. reflexivity. Qed.

Lemma append_empty_r (s : string) : s +:+ "" = s.
Proof. induction s as [|c s IH]; [reflexivity|]. by rewrite append_cons, IH. Qed.































(** ** Tag stripping *)

Lemma stripFrom_outside (p rest : string) :
  contains "<" p = false → stripFrom false (p +:+ rest) = p +:+ stripFrom false rest.
Proof.
  induction p as [|c p IH]; [reflexivity|]. intros Hp. simpl in Hp.
  destruct (Ascii.eqb c "<") eqn:Hc; [discriminate|]. simpl in Hp.
  rewrite !append_cons. simpl. rewrite Hc. f_equal. by apply IH.
Qed.

Lemma stripFrom_inside (tag rest : string) :
  contains ">" tag = false →
  stripFrom true (tag +:+ String ">" rest) = stripFrom false rest.
Proof.
  induction tag as [|c tag IH]; [reflexivity|]. intros Ht. simpl in Ht.
  destruct (Ascii.eqb c ">") eqn:Hc; [discriminate|]. simpl in Ht.
  rewrite append_cons. simpl. rewrite Hc. by apply IH.
Qed.

Lemma stripFrom_unclosed (t : string) :
  contains ">" t = false → stripFrom true t = "".
Proof.
  induction t as [|c t IH]; [reflexivity|]. intros Ht. simpl in Ht.
  destruct (Ascii.eqb c ">") eqn:Hc; [discriminate|]. simpl in Ht.
  simpl. rewrite Hc. by apply IH.
Qed.

(** X9.  The cleaned text holds no opening angle bracket, and cleaning
    it again changes nothing. *)
Theorem stripTags_idempotent (s : string) :
  contains "<" (stripTags s) = false
  ∧ stripTags (stripTags s) = stripTags s.
Proof.
  assert (H : contains "<" (stripTags s) = false) by apply stripFrom_no_bracket.
  split; [exact H|]. by apply stripTags_plain.
Qed.

(** X10.  A complete tag is removed whatever it holds, line breaks
    included, the text before it is kept, and cleaning goes on after
    it. *)
Theorem stripTags_removes_tag (p tag rest : string) :
  contains "<" p = false → contains ">" tag = false →
  stripTags (p +:+ String "<" (tag +:+ String ">" rest)) = p +:+ stripTags rest.
Proof.
  intros Hp Ht. unfold stripTags. rewrite stripFrom_outside by done.
  f_equal. simpl. by apply stripFrom_inside.
Qed.

Lemma stripTags_removes_tag_witness :
  stripTags ("日本" +:+ String "<" ("rt class=x" +:+ String ">" "にほん</rt>"))
  = "日本" +:+ stripTags "にほん</rt>".
Proof. apply stripTags_removes_tag; reflexivity. Defined.

(** X11.  An opening angle bracket that is never closed takes the rest
    of the text with it: what follows, to the end, is not spoken. *)
Theorem stripTags_unclosed_drops_rest (p t : string) :
  contains "<" p = false → contains ">" t = false →
  stripTags (p +:+ String "<" t) = p.
Proof.
  intros Hp Ht. unfold stripTags. rewrite stripFrom_outside by done.
  simpl. rewrite (stripFrom_unclosed t Ht). apply append_empty_r.
Qed.

Lemma stripTags_unclosed_drops_rest_witness :
  stripTags ("3 " +:+ String "<" " 5 is true") = "3 ".
Proof. apply stripTags_unclosed_drops_rest; reflexivity. Defined.

(** ** GeminiService, the other paths *)

Section ServiceExtras.

Import Gemini.

Variable API_KEY : option string.
Variable generateContent : GoogleGenAI → Request → Completion Response.
Variable playAudio : string → Completion unit.

Lemma getClient_cases (st : State) :
  (∃ c, ai (this st) = Some c ∧ getClient API_KEY st = (Return c, st))
  ∨ (∃ k, ai (this st) = None ∧ API_KEY = Some k ∧ truthy k = true
          ∧ getClient API_KEY st
            = (Return {| apiKey := k |},
               {| this := {| ai := Some {| apiKey := k |} |}; trace := trace st |}))
  ∨ (ai (this st) = None ∧ truthy_opt API_KEY = false
     ∧ getClient API_KEY st = (Throw (Error missingKeyMessage), st)).
Proof.
  unfold getClient. destruct (ai (this st)) as [c|]; [left; by exists c|].
  right. destruct API_KEY as [k|]; [|right; by repeat split].
  destruct (truthy k) eqn:Hk; [left; by exists k|right; by repeat split].
Qed.


Lemma firstInline_skips (pre post : list Part) (p : Part) (d : InlineData) :
  Forall (fun x => inlineData x = None) pre → inlineData p = Some d →
  firstInline (pre ++ p :: post) = Some ("data:image/png;base64," +:+ data d).
Proof.
  intros Hpre Hp. induction Hpre as [|x pre Hx _ IH]; simpl.
  - by rewrite Hp.
  - by rewrite Hx.
Qed.

Lemma generateImage_run (word : string) (st : State) :
  match getClient API_KEY st with
  | (Return client, st1) =>
      match generateContent client (imageRequest word) with
      | Return response =>
          generateImage API_KEY generateContent word st
          = (Return (firstInline (default [] (firstParts response))),
             logged st1 (Sent (imageRequest word)))
      | Throw e =>
          generateImage API_KEY generateContent word st
          = (Return None,
             logged (logged st1 (Sent (imageRequest word)))
               (ConsoleError "Image generation failed" e))
      end
  | (Throw e, st1) =>
      generateImage API_KEY generateContent word st
      = (Return None, logged st1 (ConsoleError "Image generation failed" e))
  end.
Proof.
  unfold generateImage, tryCatch, call, emit, mbind, Eff_bind, modify, liftC.
  destruct (getClient API_KEY st) as [[client|e] st1]; simpl; [|reflexivity].
  destruct (generateContent client _) as [response|e]; reflexivity.
Qed.

Lemma generateSpeech_run (txt : string) (lang : Lang) (st : State) :
  let req := speechRequest (stripTags txt) (voiceFor lang) in
  match getClient API_KEY st with
  | (Return client, st1) =>
      match generateContent client req with
      | Return response =>
          match firstAudio response with
          | Some d =>
              if truthy d then
                match playAudio d with
                | Return _ =>
                    generateSpeech API_KEY generateContent playAudio txt lang st
                    = (Return tt, logged (logged st1 (Sent req)) (Played d))
                | Throw e =>
                    generateSpeech API_KEY generateContent playAudio txt lang st
                    = (Return tt, logged (logged st1 (Sent req)) (ConsoleError "TTS failed" e))
                end
              else generateSpeech API_KEY generateContent playAudio txt lang st
                   = (Return tt, logged st1 (Sent req))
          | None => generateSpeech API_KEY generateContent playAudio txt lang st
                    = (Return tt, logged st1 (Sent req))
          end
      | Throw e =>
          generateSpeech API_KEY generateContent playAudio txt lang st
          = (Return tt, logged (logged st1 (Sent req)) (ConsoleError "TTS failed" e))
      end
  | (Throw e, st1) =>
      generateSpeech API_KEY generateContent playAudio txt lang st
      = (Return tt, logged st1 (ConsoleError "TTS failed" e))
  end.
Proof.
  intros req. subst req.
  unfold generateSpeech, tryCatch, call, emit, mbind, Eff_bind, modify, liftC.
  destruct (getClient API_KEY st) as [[client|e] st1]; simpl; [|reflexivity].
  destruct (generateContent client _) as [response|e]; simpl; [|reflexivity].
  unfold firstAudio, mbind, option_bind.
  match goal with
  | |- context [truthy_opt ?x] => destruct x as [d|]; simpl; [|reflexivity]
  end.
  destruct (truthy d); simpl; [|reflexivity].
  destruct (playAudio d) as [[]|e]; reflexivity.
Qed.

End ServiceExtras.

(** X12.  Once [getClient] has returned a client, the instance keeps
    it: every later call returns that client and leaves the instance as
    it is, whatever the environment holds by then. *)
Theorem getClient_caches
    (API_KEY later : option string) (st st1 : Gemini.State)
    (client : Gemini.GoogleGenAI) :
  Gemini.getClient API_KEY st = (Return client, st1) →
  Gemini.ai (Gemini.this st1) = Some client
  ∧ Gemini.trace st1 = Gemini.trace st
  ∧ Gemini.getClient later st1 = (Return client, st1).
Proof.
  intros Hc.
  assert (Hai : Gemini.ai (Gemini.this st1) = Some client).
  { destruct (getClient_cases API_KEY st)
      as [(c & Hai & H)|[(k & Hai & Hk & Ht & H)|(Hai & Hk & H)]];
      rewrite H in Hc; inversion Hc; subst; done. }
  split; [exact Hai|]. split; [by eapply getClient_trace|].
  unfold Gemini.getClient. by rewrite Hai.
Qed.

Lemma getClient_caches_witness :
  let st1 := {| Gemini.this := {| Gemini.ai := Some {| Gemini.apiKey := "key" |} |};
                Gemini.trace := [] |} in
  Gemini.ai (Gemini.this st1) = Some {| Gemini.apiKey := "key" |}
  ∧ Gemini.trace st1 = Gemini.trace bare
  ∧ Gemini.getClient None st1 = (Return {| Gemini.apiKey := "key" |}, st1).
Proof.
  apply (getClient_caches (Some "key") None bare). reflexivity.
Defined.

(** X13.  [getClient] throws exactly when the instance holds no client
    and the environment holds no credential or an empty one; it then
    throws the missing-key error and leaves the instance as it is. *)
Theorem getClient_fails_iff (API_KEY : option string) (st : Gemini.State) :
  ((∃ e, fst (Gemini.getClient API_KEY st) = Throw e)
   ↔ Gemini.ai (Gemini.this st) = None ∧ truthy_opt API_KEY = false)
  ∧ (∀ e, fst (Gemini.getClient API_KEY st) = Throw e →
       Gemini.getClient API_KEY st = (Throw (Error Gemini.missingKeyMessage), st)).
Proof.
  destruct (getClient_cases API_KEY st)
    as [(c & Hai & H)|[(k & Hai & Hk & Ht & H)|(Hai & Hk & H)]]; rewrite H; simpl.
  - split; [|discriminate]. split; [by intros [e ?]|]. intros [Hn _]. congruence.
  - split; [|discriminate]. split; [by intros [e ?]|]. intros [_ Hf].
    rewrite Hk in Hf. simpl in Hf. congruence.
  - split; [|done]. split; [done|]. intros _. by eexists.
Qed.


Lemma generateImage_inline
    (API_KEY : option string)
    (generateContent : Gemini.GoogleGenAI → Gemini.Request → Completion Gemini.Response)
    (word : string) (st st1 : Gemini.State) (client : Gemini.GoogleGenAI)
    (response : Gemini.Response) (pre post : list Gemini.Part)
    (p : Gemini.Part) (d : Gemini.InlineData) :
  Gemini.getClient API_KEY st = (Return client, st1) →
  generateContent client (Gemini.imageRequest word) = Return response →
  Gemini.firstParts response = Some (pre ++ p :: post) →
  Forall (fun x => Gemini.inlineData x = None) pre →
  Gemini.inlineData p = Some d →
  fst (Gemini.generateImage API_KEY generateContent word st)
  = Return (Some ("data:image/png;base64," +:+ Gemini.data d)).
Proof.
  intros Hc Hr Hparts Hpre Hp.
  pose proof (generateImage_run API_KEY generateContent word st) as Hrun.
  rewrite Hc, Hr in Hrun. rewrite Hrun. simpl. rewrite Hparts. simpl.
  by rewrite (firstInline_skips pre post p d Hpre Hp).
Qed.

(** X15.  [generateImage] goes through the parts of the first candidate
    and returns the first one that carries inline data, wherever it
    stands among parts that carry none. *)
Theorem generateImage_finds_inline_part
    (API_KEY : option string)
    (generateContent : Gemini.GoogleGenAI → Gemini.Request → Completion Gemini.Response)
    (word : string) (st st1 : Gemini.State) (client : Gemini.GoogleGenAI)
    (response : Gemini.Response) (pre post : list Gemini.Part)
    (p : Gemini.Part) (d : Gemini.InlineData) :
  Gemini.getClient API_KEY st = (Return client, st1) →
  generateContent client (Gemini.imageRequest word) = Return response →
  Gemini.firstParts response = Some (pre ++ p :: post) →
  Forall (fun x => Gemini.inlineData x = None) pre →
  Gemini.inlineData p = Some d →
  fst (Gemini.generateImage API_KEY generateContent word st)
  = Return (Some ("data:image/png;base64," +:+ Gemini.data d)).
Proof.
  intros Hc Hr Hparts Hpre Hp.
  pose proof (generateImage_run API_KEY generateContent word st) as Hrun.
  rewrite Hc, Hr in Hrun. rewrite Hrun. simpl. rewrite Hparts. simpl.
  by rewrite (firstInline_skips pre post p d Hpre Hp).
Qed.

Lemma generateImage_finds_inline_part_witness :
  fst (Gemini.generateImage (Some "key") mediaBackend "dog" (Gemini.fresh (Some "key")))
  = Return (Some ("data:image/png;base64," +:+ Gemini.data {| Gemini.data := "QUJD" |})).
Proof.
  apply (generateImage_finds_inline_part (Some "key") mediaBackend "dog"
           (Gemini.fresh (Some "key")) (Gemini.fresh (Some "key"))
           {| Gemini.apiKey := "key" |} (respond [textPart; dataPart "QUJD"])
           [textPart] [] (dataPart "QUJD") {| Gemini.data := "QUJD" |});
    try reflexivity.
  repeat constructor.
Defined.

(** X16.  [generateSpeech] never throws: a missing credential, a
    backend failure and a failure of the audio playback all end in a
    normal return. *)
Theorem generateSpeech_never_throws
    (API_KEY : option string)
    (generateContent : Gemini.GoogleGenAI → Gemini.Request → Completion Gemini.Response)
    (playAudio : string → Completion unit)
    (txt : string) (lang : Gemini.Lang) (st : Gemini.State) :
  fst (Gemini.generateSpeech API_KEY generateContent playAudio txt lang st) = Return tt.
Proof.
  pose proof (generateSpeech_run API_KEY generateContent playAudio txt lang st) as Hrun.
  simpl in Hrun.
  destruct (Gemini.getClient API_KEY st) as [[client|e] st1]; [|by rewrite Hrun].
  destruct (generateContent client _) as [response|e]; [|by rewrite Hrun].
  destruct (firstAudio response) as [d|]; [|by rewrite Hrun].
  destruct (truthy d); [|by rewrite Hrun].
  destruct (playAudio d); by rewrite Hrun.
Qed.

(** X17.  [generateSpeech] looks at the first part of the answer only:
    when that part carries no inline data nothing is played, whatever
    the parts after it carry, and the call returns having only sent its
    request. *)
Theorem generateSpeech_reads_first_part_only
    (API_KEY : option string)
    (generateContent : Gemini.GoogleGenAI → Gemini.Request → Completion Gemini.Response)
    (playAudio : string → Completion unit)
    (txt : string) (lang : Gemini.Lang) (st st1 : Gemini.State)
    (client : Gemini.GoogleGenAI) (response : Gemini.Response)
    (p : Gemini.Part) (others : list Gemini.Part) :
  Gemini.getClient API_KEY st = (Return client, st1) →
  generateContent client
    (Gemini.speechRequest (stripTags txt) (Gemini.voiceFor lang)) = Return response →
  Gemini.firstParts response = Some (p :: others) →
  Gemini.inlineData p = None →
  Gemini.generateSpeech API_KEY generateContent playAudio txt lang st
  = (Return tt,
     Gemini.logged st1
       (Gemini.Sent (Gemini.speechRequest (stripTags txt) (Gemini.voiceFor lang)))).
Proof.
  intros Hc Hr Hparts Hp.
  pose proof (generateSpeech_run API_KEY generateContent playAudio txt lang st) as Hrun.
  simpl in Hrun. rewrite Hc, Hr in Hrun.
  assert (Hfa : firstAudio response = None).
  { unfold firstAudio. rewrite Hparts. simpl. by rewrite Hp. }
  by rewrite Hfa in Hrun.
Qed.

Lemma generateSpeech_reads_first_part_only_witness :
  Gemini.generateSpeech (Some "key") mediaBackend silentAudio "犬" Gemini.JP
    (Gemini.fresh (Some "key"))
  = (Return tt,
     Gemini.logged (Gemini.fresh (Some "key"))
       (Gemini.Sent (Gemini.speechRequest (stripTags "犬") (Gemini.voiceFor Gemini.JP)))).
Proof.
  apply (generateSpeech_reads_first_part_only (Some "key") mediaBackend silentAudio
           "犬" Gemini.JP (Gemini.fresh (Some "key")) (Gemini.fresh (Some "key"))
           {| Gemini.apiKey := "key" |} (respond [textPart; dataPart "QUJD"])
           textPart [dataPart "QUJD"]); reflexivity.
Defined.

(** X18.  Whatever text [generateSpeech] is given, the request that
    goes out to the speech model carries it without any opening angle
    bracket, with the voice of the language asked for. *)
Theorem speech_request_is_tag_free
    (API_KEY : option string)
    (generateContent : Gemini.GoogleGenAI → Gemini.Request → Completion Gemini.Response)
    (playAudio : string → Completion unit)
    (txt : string) (lang : Gemini.Lang)
    (st st1 : Gemini.State) (client : Gemini.GoogleGenAI) :
  Gemini.getClient API_KEY st = (Return client, st1) →
  ∃ req later,
    Gemini.trace (snd (Gemini.generateSpeech API_KEY generateContent playAudio txt lang st))
    = Gemini.trace st ++ Gemini.Sent req :: later
    ∧ Gemini.model req = "gemini-2.5-flash-preview-tts"
    ∧ Gemini.config req = Gemini.AudioResponse (Gemini.voiceFor lang)
    ∧ Gemini.contents req = stripTags txt
    ∧ contains "<" (Gemini.contents req) = false.
Proof.
  intros Hc.
  destruct (generateSpeech_sends API_KEY generateContent playAudio txt lang st st1
              client Hc) as [later Hl].
  eexists _, later. split; [exact Hl|]. repeat split.
  apply stripFrom_no_bracket.
Qed.

Lemma speech_request_is_tag_free_witness :
  ∃ req later,
    Gemini.trace (snd (Gemini.generateSpeech (Some "key") failingBackend silentAudio
                         "<b>犬" Gemini.JP (Gemini.fresh (Some "key"))))
    = Gemini.trace (Gemini.fresh (Some "key")) ++ Gemini.Sent req :: later
    ∧ Gemini.model req = "gemini-2.5-flash-preview-tts"
    ∧ Gemini.config req = Gemini.AudioResponse (Gemini.voiceFor Gemini.JP)
    ∧ Gemini.contents req = stripTags "<b>犬"
    ∧ contains "<" (Gemini.contents req) = false.
Proof.
  apply (speech_request_is_tag_free (Some "key") failingBackend silentAudio "<b>犬"
           Gemini.JP (Gemini.fresh (Some "key")) (Gemini.fresh (Some "key"))
           {| Gemini.apiKey := "key" |}).
  reflexivity.
Defined.

(** X19.  [analyzeSentence] treats the answer as [analyzeWord] does: no
    text or an empty text throws, a text that is not valid JSON throws
    the parser's error, and any valid JSON is returned as parsed,
    unchecked against the sentence schema. *)
Theorem analyzeSentence_outcome
    (API_KEY : option string)
    (generateContent : Gemini.GoogleGenAI → Gemini.Request → Completion Gemini.Response)
    (sentence : string) (st st1 : Gemini.State) (client : Gemini.GoogleGenAI)
    (response : Gemini.Response) :
  Gemini.getClient API_KEY st = (Return client, st1) →
  generateContent client (Gemini.sentenceRequest (Gemini.sentencePrompt sentence))
    = Return response →
  let result := fst (Gemini.analyzeSentence API_KEY generateContent sentence st) in
  (truthy_opt (Gemini.text response) = false →
     result = Throw (Error "No text response from Gemini"))
  ∧ (∀ t, Gemini.text response = Some t → truthy t = true → result = JSON_parse t)
  ∧ (∀ v, result = Return v →
       ∃ t, Gemini.text response = Some t ∧ JSON_parse t = Return v).
Proof.
  intros Hc Hr result. subst result.
  unfold Gemini.analyzeSentence, Gemini.call, Gemini.emit, mbind, Eff_bind, modify,
    liftC, throw.
  rewrite Hc. simpl. rewrite Hr.
  destruct (Gemini.text response) as [t|] eqn:Ht; simpl.
  - destruct (truthy t) eqn:Htr; simpl.
    + repeat split; [discriminate|by intros t' [= <-] _|].
      intros v Hv. by exists t.
    + repeat split; [by intros t' [= <-]; congruence|discriminate].
  - repeat split; discriminate.
Qed.

Lemma analyzeSentence_outcome_witness :
  let response := {| Gemini.text := Some partialText; Gemini.candidates := None |} in
  let result := fst (Gemini.analyzeSentence (Some "key") partialBackend "犬が好き"
                       (Gemini.fresh (Some "key"))) in
  (truthy_opt (Gemini.text response) = false →
     result = Throw (Error "No text response from Gemini"))
  ∧ (∀ t, Gemini.text response = Some t → truthy t = true → result = JSON_parse t)
  ∧ (∀ v, result = Return v →
       ∃ t, Gemini.text response = Some t ∧ JSON_parse t = Return v).
Proof.
  apply (analyzeSentence_outcome (Some "key") partialBackend "犬が好き"
           (Gemini.fresh (Some "key")) (Gemini.fresh (Some "key"))
           {| Gemini.apiKey := "key" |}); reflexivity.
Defined.

(** X20.  When the backend rejects an analysis request, [analyzeWord]
    and [analyzeSentence] throw that very error to their caller, having
    sent the one request and nothing else. *)
Theorem analysis_rejection_propagates
    (API_KEY : option string)
    (generateContent : Gemini.GoogleGenAI → Gemini.Request → Completion Gemini.Response)
    (input : string) (st st1 : Gemini.State) (client : Gemini.GoogleGenAI) (e : Exn) :
  Gemini.getClient API_KEY st = (Return client, st1) →
  (generateContent client (Gemini.wordRequest (Gemini.wordPrompt input)) = Throw e →
   Gemini.analyzeWord API_KEY generateContent input st
   = (Throw e,
      Gemini.logged st1 (Gemini.Sent (Gemini.wordRequest (Gemini.wordPrompt input)))))
  ∧ (generateContent client (Gemini.sentenceRequest (Gemini.sentencePrompt input))
       = Throw e →
     Gemini.analyzeSentence API_KEY generateContent input st
     = (Throw e,
        Gemini.logged st1
          (Gemini.Sent (Gemini.sentenceRequest (Gemini.sentencePrompt input))))).
Proof.
  intros Hc. split; intros Hr.
  - unfold Gemini.analyzeWord, Gemini.call, Gemini.emit, mbind, Eff_bind, modify, liftC.
    rewrite Hc. simpl. by rewrite Hr.
  - unfold Gemini.analyzeSentence, Gemini.call, Gemini.emit, mbind, Eff_bind, modify,
      liftC.
    rewrite Hc. simpl. by rewrite Hr.
Qed.

Lemma analysis_rejection_propagates_witness :
  let st := Gemini.fresh (Some "key") in
  let e := Rejected "503 Service Unavailable" in
  (failingBackend {| Gemini.apiKey := "key" |}
     (Gemini.wordRequest (Gemini.wordPrompt "犬")) = Throw e →
   Gemini.analyzeWord (Some "key") failingBackend "犬" st
   = (Throw e,
      Gemini.logged st (Gemini.Sent (Gemini.wordRequest (Gemini.wordPrompt "犬")))))
  ∧ (failingBackend {| Gemini.apiKey := "key" |}
       (Gemini.sentenceRequest (Gemini.sentencePrompt "犬")) = Throw e →
     Gemini.analyzeSentence (Some "key") failingBackend "犬" st
     = (Throw e,
        Gemini.logged st
          (Gemini.Sent (Gemini.sentenceRequest (Gemini.sentencePrompt "犬"))))).
Proof.
  apply (analysis_rejection_propagates (Some "key") failingBackend "犬"
           (Gemini.fresh (Some "key")) (Gemini.fresh (Some "key"))
           {| Gemini.apiKey := "key" |} (Rejected "503 Service Unavailable")).
  reflexivity.
Defined.

(** ** The App component, the other paths *)

Section AppExtras.

Import App.

Variable analyzeWord : string → Completion WordData.
Variable generateImage : string → Completion (option string).

Lemma handleSearch_image_throws (nowId nowTs : Z) (w : World) (d : WordData) (e : Exn) :
  truthy (trim (query (state w))) = true →
  analyzeWord (query (state w)) = Return d →
  generateImage (en (coreWord d)) = Throw e →
  handleSearch analyzeWord generateImage nowId nowTs w
  = (Return tt,
     {| state := {| query := query (state w); currentData := Some d;
                    currentImage := None; loadingState := ERROR;
                    error := Some analysisFailedMessage;
                    history := history (state w);
                    isSidebarOpen := isSidebarOpen (state w) |};
        console := console w ++ [("", e)];
        transitions := ((transitions w ++ [ANALYZING]) ++ [GENERATING_IMAGE]) ++ [ERROR];
        persisted := persisted w |}).
Proof.
  intros Hq Ha Hi. unfold handleSearch, mbind, Eff_bind, gets. rewrite Hq. simpl.
  unfold tryCatch, liftC. simpl. rewrite Ha. simpl. rewrite Hi. reflexivity.
Qed.

(** The four ways a submission can go. *)
Lemma handleSearch_cases (nowId nowTs : Z) (w : World) :
  let r := handleSearch analyzeWord generateImage nowId nowTs w in
  (r = (Return tt, w) ∧ truthy (trim (query (state w))) = false)
  ∨ (∃ e, analyzeWord (query (state w)) = Throw e
          ∧ transitions (snd r) = transitions w ++ [ANALYZING; ERROR]
          ∧ loadingState (state (snd r)) = ERROR
          ∧ history (state (snd r)) = history (state w)
          ∧ persisted (snd r) = persisted w ∧ fst r = Return tt)
  ∨ (∃ d e, analyzeWord (query (state w)) = Return d
            ∧ generateImage (en (coreWord d)) = Throw e
            ∧ transitions (snd r) = transitions w ++ [ANALYZING; GENERATING_IMAGE; ERROR]
            ∧ loadingState (state (snd r)) = ERROR
            ∧ history (state (snd r)) = history (state w)
            ∧ persisted (snd r) = persisted w ∧ fst r = Return tt)
  ∨ (∃ d newItem, analyzeWord (query (state w)) = Return d
                  ∧ data newItem = d
                  ∧ transitions (snd r)
                    = transitions w ++ [ANALYZING; GENERATING_IMAGE; COMPLETE]
                  ∧ loadingState (state (snd r)) = COMPLETE
                  ∧ history (state (snd r)) = insert newItem (history (state w))
                  ∧ persisted (snd r)
                    = persisted w ++ [insert newItem (history (state w))]
                  ∧ fst r = Return tt).
Proof.
  intros r. subst r.
  destruct (truthy (trim (query (state w)))) eqn:Hq;
    [|left; by rewrite (handleSearch_blank analyzeWord generateImage _ _ _ Hq)].
  right. destruct (analyzeWord (query (state w))) as [d|e] eqn:Ha.
  - right. destruct (generateImage (en (coreWord d))) as [image|e] eqn:Hi.
    + right.
      rewrite (handleSearch_success analyzeWord generateImage _ _ _ d image Hq Ha Hi).
      simpl. rewrite <- !app_assoc.
      exists d, {| id := pretty nowId; timestamp := nowTs; word := jp (coreWord d);
                   data := d;
                   imageUrl := if truthy_opt image then image else None |}.
      repeat split; done.
    + left.
      rewrite (handleSearch_image_throws _ _ _ d e Hq Ha Hi).
      simpl. rewrite <- !app_assoc. exists d, e. repeat split; done.
  - left. rewrite (handleSearch_analysis_throws analyzeWord generateImage _ _ _ e Hq Ha).
    simpl. rewrite <- !app_assoc. exists e. repeat split; done.
Qed.

End AppExtras.

(** X21.  A submission whose query is empty or only white space, the
    ideographic space included, does nothing at all: no state changes,
    nothing is logged or stored, and the outcome does not depend on
    what the service would have answered. *)
Theorem blank_query_is_ignored
    (analyzeWord : string → Completion WordData)
    (generateImage : string → Completion (option string))
    (nowId nowTs : Z) (w : App.World) :
  truthy (trim (App.query (App.state w))) = false →
  App.handleSearch analyzeWord generateImage nowId nowTs w = (Return tt, w).
Proof.
  intros Hblank. unfold App.handleSearch, mbind, Eff_bind, gets.
  simpl. by rewrite Hblank.
Qed.

Lemma blank_query_is_ignored_witness :
  App.handleSearch (answers (data newDog)) noImage 3 3 (searching blankQuery)
  = (Return tt, searching blankQuery).
Proof. apply blank_query_is_ignored. reflexivity. Defined.

(** X22.  [handleSearch] never throws.  It leaves the loading state
    alone (blank query) or takes it through Analyzing to Error, or
    through Analyzing and GeneratingImage to Complete or to Error; when
    both calls have come back the session is never left in Analyzing or
    GeneratingImage. *)
Theorem handleSearch_never_throws
    (analyzeWord : string → Completion WordData)
    (generateImage : string → Completion (option string))
    (nowId nowTs : Z) (w : App.World) :
  let r := App.handleSearch analyzeWord generateImage nowId nowTs w in
  fst r = Return tt
  ∧ ((snd r = w)
     ∨ (App.transitions (snd r) = App.transitions w ++ [ANALYZING; ERROR]
        ∧ App.loadingState (App.state (snd r)) = ERROR)
     ∨ (App.transitions (snd r)
          = App.transitions w ++ [ANALYZING; GENERATING_IMAGE; COMPLETE]
        ∧ App.loadingState (App.state (snd r)) = COMPLETE)
     ∨ (App.transitions (snd r)
          = App.transitions w ++ [ANALYZING; GENERATING_IMAGE; ERROR]
        ∧ App.loadingState (App.state (snd r)) = ERROR)).
Proof.
  intros r. subst r.
  destruct (handleSearch_cases analyzeWord generateImage nowId nowTs w)
    as [[Hr _]|[(e & _ & Ht & Hl & _ & _ & Hf)
       |[(d & e & _ & _ & Ht & Hl & _ & _ & Hf)
        |(d & it & _ & _ & Ht & Hl & _ & _ & Hf)]]].
  - rewrite Hr. split; [reflexivity|by left].
  - split; [exact Hf|]. right. left. by split.
  - split; [exact Hf|]. right. right. right. by split.
  - split; [exact Hf|]. right. right. left. by split.
Qed.

(** X23.  After a submission whose analysis throws, the page is in
    Error with the fixed message, the previous result and image are
    gone from the display, the query is still in the box, and the
    error thrown is the one thing logged. *)
Theorem failed_analysis_shows_error
    (analyzeWord : string → Completion WordData)
    (generateImage : string → Completion (option string))
    (nowId nowTs : Z) (w : App.World) (e : Exn) :
  truthy (trim (App.query (App.state w))) = true →
  analyzeWord (App.query (App.state w)) = Throw e →
  let w' := snd (App.handleSearch analyzeWord generateImage nowId nowTs w) in
  App.loadingState (App.state w') = ERROR
  ∧ App.query (App.state w') = App.query (App.state w)
  ∧ App.console w' = App.console w ++ [("", e)]
  ∧ errorBanner (render (App.state w')) = Some App.analysisFailedMessage
  ∧ wordCard (render (App.state w')) = None
  ∧ skeleton (render (App.state w')) = None
  ∧ placeholder (render (App.state w')) = false.
Proof.
  intros Hq Ha w'. subst w'.
  rewrite (handleSearch_analysis_throws analyzeWord generateImage _ _ _ e Hq Ha).
  repeat split.
Qed.

Lemma failed_analysis_shows_error_witness :
  let w := searching "dog" in
  let w' := snd (App.handleSearch refuses noImage 3 3 w) in
  App.loadingState (App.state w') = ERROR
  ∧ App.query (App.state w') = App.query (App.state w)
  ∧ App.console w' = App.console w ++ [("", Error "No text response from Gemini")]
  ∧ errorBanner (render (App.state w')) = Some App.analysisFailedMessage
  ∧ wordCard (render (App.state w')) = None
  ∧ skeleton (render (App.state w')) = None
  ∧ placeholder (render (App.state w')) = false.
Proof.
  apply (failed_analysis_shows_error refuses noImage 3 3 (searching "dog")
           (Error "No text response from Gemini")); reflexivity.
Defined.

Lemma loadFromHistory_run (item : HistoryItem) (w : App.World) :
  App.loadFromHistory item w
  = (Return tt,
     {| App.state :=
          {| App.query := if truthy (inputWord (data item)) then inputWord (data item)
                          else jp (coreWord (data item));
             App.currentData := Some (data item);
             App.currentImage := imageUrl item;
             App.loadingState := COMPLETE;
             App.error := App.error (App.state w);
             App.history := App.history (App.state w);
             App.isSidebarOpen := App.isSidebarOpen (App.state w) |};
        App.console := App.console w;
        App.transitions := App.transitions w ++ [COMPLETE];
        App.persisted := App.persisted w |}).
Proof. reflexivity. Qed.

(** X24.  When the analysis returns a record and the backend answers
    the image request with inline data, the session ends in Complete
    with that image, as a PNG data URI, on display and on the item put
    at the head of the history. *)
Theorem image_success_is_attached
    (API_KEY : option string)
    (generateContent : Gemini.GoogleGenAI → Gemini.Request → Completion Gemini.Response)
    (service service1 : Gemini.State) (client : Gemini.GoogleGenAI)
    (response : Gemini.Response) (pre post : list Gemini.Part)
    (p : Gemini.Part) (img : Gemini.InlineData)
    (analyzeWord : string → Completion WordData)
    (nowId nowTs : Z) (w : App.World) (d : WordData) :
  truthy (trim (App.query (App.state w))) = true →
  analyzeWord (App.query (App.state w)) = Return d →
  Gemini.getClient API_KEY service = (Return client, service1) →
  generateContent client (Gemini.imageRequest (en (coreWord d))) = Return response →
  Gemini.firstParts response = Some (pre ++ p :: post) →
  Forall (fun x => Gemini.inlineData x = None) pre →
  Gemini.inlineData p = Some img →
  let generateImage word :=
    fst (Gemini.generateImage API_KEY generateContent word service) in
  let w' := snd (App.handleSearch analyzeWord generateImage nowId nowTs w) in
  let url := "data:image/png;base64," +:+ Gemini.data img in
  App.loadingState (App.state w') = COMPLETE
  ∧ wordCard (render (App.state w')) = Some (d, Some url)
  ∧ errorBanner (render (App.state w')) = None
  ∧ ∃ newItem,
      data newItem = d ∧ imageUrl newItem = Some url
      ∧ App.history (App.state w') = insert newItem (App.history (App.state w)).
Proof.
  intros Hq Ha Hc Hr Hparts Hpre Hp generateImage w' url. subst w'.
  assert (Hi : generateImage (en (coreWord d)) = Return (Some url))
    by (by eapply generateImage_inline).
  rewrite (handleSearch_success analyzeWord generateImage nowId nowTs w d (Some url)
             Hq Ha Hi).
  simpl. repeat split.
  eexists {| id := _; timestamp := _; word := _; data := d; imageUrl := Some url |}.
  repeat split.
Qed.

Lemma image_success_is_attached_witness :
  let d := data newDog in
  let w := searching "dog" in
  let generateImage word :=
    fst (Gemini.generateImage (Some "key") mediaBackend word (Gemini.fresh (Some "key"))) in
  let w' := snd (App.handleSearch (answers d) generateImage 3 3 w) in
  let url := "data:image/png;base64," +:+ Gemini.data {| Gemini.data := "QUJD" |} in
  App.loadingState (App.state w') = COMPLETE
  ∧ wordCard (render (App.state w')) = Some (d, Some url)
  ∧ errorBanner (render (App.state w')) = None
  ∧ ∃ newItem,
      data newItem = d ∧ imageUrl newItem = Some url
      ∧ App.history (App.state w') = insert newItem (App.history (App.state w)).
Proof.
  apply (image_success_is_attached (Some "key") mediaBackend
           (Gemini.fresh (Some "key")) (Gemini.fresh (Some "key"))
           {| Gemini.apiKey := "key" |} (respond [textPart; dataPart "QUJD"])
           [textPart] [] (dataPart "QUJD") {| Gemini.data := "QUJD" |}
           (answers (data newDog)) 3 3 (searching "dog") (data newDog));
    try reflexivity.
  repeat constructor.
Defined.



(** X26.  [loadFromHistory] does not clear the error: picking an item
    of the sidebar after a submission whose analysis threw shows the
    item's card while the error message stays on the page; history,
    storage and console are as the failed submission left them. *)
Theorem stale_error_after_select
    (analyzeWord : string → Completion WordData)
    (generateImage : string → Completion (option string))
    (nowId nowTs : Z) (w : App.World) (e : Exn) (item : HistoryItem) :
  truthy (trim (App.query (App.state w))) = true →
  analyzeWord (App.query (App.state w)) = Throw e →
  let failed := snd (App.handleSearch analyzeWord generateImage nowId nowTs w) in
  let w' := snd (App.loadFromHistory item failed) in
  App.loadingState (App.state w') = COMPLETE
  ∧ wordCard (render (App.state w')) = Some (data item, imageUrl item)
  ∧ errorBanner (render (App.state w')) = Some App.analysisFailedMessage
  ∧ App.history (App.state w') = App.history (App.state w)
  ∧ App.persisted w' = App.persisted w
  ∧ App.console w' = App.console failed.
Proof.
  intros Hq Ha failed w'. subst w' failed.
  rewrite (handleSearch_analysis_throws analyzeWord generateImage _ _ _ e Hq Ha).
  rewrite loadFromHistory_run. repeat split.
Qed.

Lemma stale_error_after_select_witness :
  let failed := snd (App.handleSearch refuses noImage 3 3 (searching "dog")) in
  let w' := snd (App.loadFromHistory oldCat failed) in
  App.loadingState (App.state w') = COMPLETE
  ∧ wordCard (render (App.state w')) = Some (data oldCat, imageUrl oldCat)
  ∧ errorBanner (render (App.state w')) = Some App.analysisFailedMessage
  ∧ App.history (App.state w') = App.history (App.state (searching "dog"))
  ∧ App.persisted w' = App.persisted (searching "dog")
  ∧ App.console w' = App.console failed.
Proof.
  apply (stale_error_after_select refuses noImage 3 3 (searching "dog")
           (Error "No text response from Gemini") oldCat); reflexivity.
Defined.

(** X27.  Picking an item of the history in the sidebar and submitting
    again, the analysis returning the item's record, puts a new item
    for that record at the head, removes the old one, and leaves the
    history no longer than it was. *)
Theorem search_from_sidebar_moves_to_top
    (analyzeWord : string → Completion WordData)
    (generateImage : string → Completion (option string))
    (nowId nowTs : Z) (w : App.World) (item : HistoryItem) (image : option string) :
  item ∈ App.history (App.state w) →
  let picked := snd (App.loadFromHistory item w) in
  truthy (trim (App.query (App.state picked))) = true →
  analyzeWord (App.query (App.state picked)) = Return (data item) →
  generateImage (en (coreWord (data item))) = Return image →
  let h' := App.history (App.state (snd (App.handleSearch analyzeWord generateImage
                                           nowId nowTs picked))) in
  (∃ newItem, data newItem = data item ∧ timestamp newItem = nowTs
              ∧ head h' = Some newItem)
  ∧ (item ∉ tail h')
  ∧ (length h' ≤ length (App.history (App.state w)))%nat.
Proof.
  intros Hin picked Hq Ha Hi h'. subst h'.
  rewrite (handleSearch_success analyzeWord generateImage nowId nowTs picked
             (data item) image Hq Ha Hi).
  subst picked. rewrite loadFromHistory_run. simpl.
  set (newItem := {| id := pretty nowId; timestamp := nowTs;
                     word := jp (coreWord (data item)); data := data item;
                     imageUrl := if truthy_opt image then image else None |}).
  split; [by exists newItem|]. split.
  - intros Hbad.
    pose proof (insert_tail_keeps newItem (App.history (App.state w))) as Hall.
    rewrite Forall_forall in Hall. destruct (Hall _ Hbad) as [Hjp _]. by apply Hjp.
  - apply (insert_duplicate_length newItem item); [exact Hin|].
    intros [Hjp _]. by apply Hjp.
Qed.

Lemma search_from_sidebar_moves_to_top_witness :
  let w := searching "" in
  let picked := snd (App.loadFromHistory oldDog w) in
  let h' := App.history (App.state (snd (App.handleSearch (answers (data oldDog)) noImage
                                           7 7 picked))) in
  (∃ newItem, data newItem = data oldDog ∧ timestamp newItem = 7%Z
              ∧ head h' = Some newItem)
  ∧ (oldDog ∉ tail h')
  ∧ (length h' ≤ length (App.history (App.state w)))%nat.
Proof.
  apply (search_from_sidebar_moves_to_top (answers (data oldDog)) noImage 7 7
           (searching "") oldDog None).
  - apply list_elem_of_further, list_elem_of_here.
  - reflexivity.
  - reflexivity.
  - reflexivity.
Defined.




(** X29.  Mounting never throws.  With nothing or an empty string in
    storage the history is empty; with a blob that parses, the history
    is the parsed value, written back to storage after the empty
    history of the first render. *)
Theorem mount_outcome (asHistory : JSON → list HistoryItem) (saved : option string) :
  let r := App.mount asHistory saved App.initialWorld in
  fst r = Return tt
  ∧ (saved = None ∨ saved = Some "" →
     App.history (App.state (snd r)) = []
     ∧ App.persisted (snd r) = [[]] ∧ App.console (snd r) = [])
  ∧ (∀ blob v, saved = Some blob → JSON_parse blob = Return v →
       App.history (App.state (snd r)) = asHistory v
       ∧ App.persisted (snd r) = [[]; asHistory v] ∧ App.console (snd r) = []).
Proof.
  intros r. subst r. unfold App.mount, App.loadHistory, mbind, Eff_bind. simpl.
  destruct saved as [blob|]; simpl.
  - destruct blob as [|c blob]; simpl.
    + split; [reflexivity|]. split; [done|]. intros blob v [= <-]. discriminate.
    + unfold tryCatch, liftC, mbind, Eff_bind.
      destruct (JSON_parse (String c blob)) as [v|e] eqn:Hp; simpl.
      * split; [reflexivity|]. split; [by intros [|]|].
        intros blob' v' [= <-]. rewrite Hp. by intros [= <-].
      * split; [reflexivity|]. split; [by intros [|]|].
        intros blob' v' [= <-]. by rewrite Hp.
  - split; [reflexivity|]. split; [done|]. discriminate.
Qed.

(** X30.  [handleSearch] asks the service two things at most: the
    analysis of the query and, only when that returned a record, the
    image for the record's English core word.  Two services that agree
    on these give the same run; after a failed analysis the image call
    plays no part. *)
Theorem handleSearch_asks_two_things
    (analyze1 analyze2 : string → Completion WordData)
    (image1 image2 : string → Completion (option string))
    (nowId nowTs : Z) (w : App.World) :
  analyze1 (App.query (App.state w)) = analyze2 (App.query (App.state w)) →
  (∀ d, analyze1 (App.query (App.state w)) = Return d →
        image1 (en (coreWord d)) = image2 (en (coreWord d))) →
  App.handleSearch analyze1 image1 nowId nowTs w
  = App.handleSearch analyze2 image2 nowId nowTs w.
Proof.
  intros Ha Hi.
  destruct (truthy (trim (App.query (App.state w)))) eqn:Hq.
  - destruct (analyze1 (App.query (App.state w))) as [d|e] eqn:H1.
    + specialize (Hi d eq_refl). symmetry in Ha.
      destruct (image1 (en (coreWord d))) as [image|e] eqn:H2; symmetry in Hi.
      * rewrite (handleSearch_success analyze1 image1 _ _ _ d image Hq H1 H2).
        by rewrite (handleSearch_success analyze2 image2 _ _ _ d image Hq Ha Hi).
      * rewrite (handleSearch_image_throws analyze1 image1 _ _ _ d e Hq H1 H2).
        by rewrite (handleSearch_image_throws analyze2 image2 _ _ _ d e Hq Ha Hi).
    + symmetry in Ha.
      rewrite (handleSearch_analysis_throws analyze1 image1 _ _ _ e Hq H1).
      by rewrite (handleSearch_analysis_throws analyze2 image2 _ _ _ e Hq Ha).
  - rewrite (handleSearch_blank analyze1 image1 _ _ _ Hq).
    by rewrite (handleSearch_blank analyze2 image2 _ _ _ Hq).
Qed.

Lemma handleSearch_asks_two_things_witness :
  App.handleSearch (answers (data newDog)) noImage 3 3 (searching "dog")
  = App.handleSearch (answers (data newDog)) dogOnlyImage 3 3 (searching "dog").
Proof.
  apply handleSearch_asks_two_things.
  - reflexivity.
  - intros d Hd. injection Hd as <-. reflexivity.
Defined.
